(** * scp_constructor.export: graph export of SCP manifests

    A shallow embedding of [export_json], [export_mermaid] and [_urn_to_id]
    from [packages/constructor/src/scp_constructor/export.py].

    Python [str] values are modelled by their UTF-8 bytes ([string]); every
    string operation the module uses with an ASCII argument ([split(":")],
    [replace("-", "_")], concatenation, [join], equality) commutes with that
    encoding.  [dict] literals are insertion-ordered association lists, the
    [seen_urns] set is a [gset string], and the places where Python can raise
    ([l[-1]], [d[k]]) return in an error monad. *)

From Stdlib Require Import ZArith Ascii String List.
From stdpp Require Import base decidable option list sets gmap strings pretty.

#[local] Set Warnings "-clear-no-such-hyp".
Open Scope string_scope.
Open Scope list_scope.

(** ** Exceptions and the error monad *)

Inductive exn : Type :=
| IndexError
| KeyError (k : string).

Inductive result (A : Type) : Type :=
| Ok (a : A)
| Raise (e : exn).
Arguments Ok {A} a.
Arguments Raise {A} e.

#[global] Instance result_ret : MRet result := fun A a => Ok a.
#[global] Instance result_bind : MBind result := fun A B f r =>
  match r with
  | Ok a => f a
  | Raise e => Raise e
  end.

(** A [for] loop whose body may raise, threading the mutated locals. *)
Fixpoint foldlM {S B : Type} (body : S -> B -> result S) (st : S) (l : list B)
  : result S :=
  match l with
  | [] => Ok st
  | x :: l' => st' ← body st x; foldlM body st' l'
  end.

(** ** Python [str] and [list] primitives *)

(** [s.split(sep)] for a one-character separator: the first segment and the
    remaining ones, so that the result is never the empty list. *)
Fixpoint split_segments (sep : ascii) (s : string) : string * list string :=
  match s with
  | EmptyString => (EmptyString, [])
  | String a s' =>
      let (h, t) := split_segments sep s' in
      if Ascii.eqb a sep then (EmptyString, h :: t) else (String a h, t)
  end.

Definition str_split (sep : ascii) (s : string) : list string :=
  let (h, t) := split_segments sep s in h :: t.

(** [s.replace(a, b)] for one-character [a] and [b]. *)
Fixpoint str_replace (a b : ascii) (s : string) : string :=
  match s with
  | EmptyString => EmptyString
  | String c s' => String (if Ascii.eqb c a then b else c) (str_replace a b s')
  end.

(** [sep.join(l)] *)
Fixpoint str_join (sep : string) (l : list string) : string :=
  match l with
  | [] => EmptyString
  | [x] => x
  | x :: l' => x +:+ sep +:+ str_join sep l'
  end.

(** [l[-1]]: raises [IndexError] on the empty list. *)
Definition list_last {A : Type} (l : list A) : result A :=
  match last l with
  | Some x => Ok x
  | None => Raise IndexError
  end.

(** ** JSON-serialisable values and dicts *)

Inductive value : Type :=
| VNone
| VBool (b : bool)
| VInt (z : Z)
| VStr (s : string).

#[global] Instance value_eq_dec : EqDecision value.
Proof. solve_decision. Defined.

(** An insertion-ordered [dict] with [str] keys. *)
Definition odict (V : Type) : Type := list (string * V).
Definition dict : Type := odict value.

Fixpoint dict_get {V : Type} (k : string) (d : odict V) : option V :=
  match d with
  | [] => None
  | (k', v) :: d' => if String.eqb k k' then Some v else dict_get k d'
  end.

(** [d[k] = v]: overwrites in place, keeping the key's position, or appends. *)
Fixpoint dict_set {V : Type} (k : string) (v : V) (d : odict V) : odict V :=
  match d with
  | [] => [(k, v)]
  | (k', v') :: d' =>
      if String.eqb k k' then (k', v) :: d' else (k', v') :: dict_set k v d'
  end.

(** [d[k]]: raises [KeyError] on a missing key. *)
Definition dict_item {V : Type} (d : odict V) (k : string) : result V :=
  match dict_get k d with
  | Some v => Ok v
  | None => Raise (KeyError k)
  end.

(** [k in d] *)
Definition dict_mem {V : Type} (k : string) (d : odict V) : bool :=
  match dict_get k d with
  | Some _ => true
  | None => false
  end.

Definition opt_str (o : option string) : value :=
  match o with
  | Some s => VStr s
  | None => VNone
  end.

Definition opt_int (o : option Z) : value :=
  match o with
  | Some z => VInt z
  | None => VNone
  end.

(** ** The manifest model

    The classes of [scp_constructor.models], with the fields [export.py]
    reads; a field that may be unset is an [option]. *)

(** Modelled from the spec: the class [models.Classification] (data model:
    a tier, a small positive integer where 1 is most critical, and a
    free-text domain). *)
Record Classification : Type := {
  tier : option Z;
  domain : option string;
}.

(** Modelled from the spec: the class [models.System] (a URN, a display
    name, an optional classification). *)
Record System : Type := {
  urn : string;
  name : string;
  classification : option Classification;
}.

(** Modelled from the spec: the class behind [manifest.ownership] (the
    optional ownership, a team name). *)
Record Ownership : Type := {
  team : option string;
}.

(** Modelled from the spec: the class [models.Capability] (a name, unique in
    its manifest, and a type tag). *)
Record Capability : Type := {
  cap_capability : string;
  cap_type : option string;
}.

(** Modelled from the spec: the class [models.Dependency] (a target URN,
    optionally a capability name on it, a criticality and a failure-mode
    label). *)
Record Dependency : Type := {
  dep_system : string;
  dep_capability : option string;
  dep_criticality : option string;
  dep_failure_mode : option string;
}.

(** Modelled from the spec: the class [models.SCPManifest] (one system, its
    ownership, its provided capabilities and its dependencies, each of the
    last three possibly absent). *)
Record SCPManifest : Type := {
  system : System;
  ownership : option Ownership;
  provides : option (list Capability);
  depends : option (list Dependency);
}.

(** [x.classification.tier if x.classification else None] *)
Definition system_tier (s : System) : option Z :=
  match classification s with
  | Some c => tier c
  | None => None
  end.

(** [x.classification.domain if x.classification else None] *)
Definition system_domain (s : System) : option string :=
  match classification s with
  | Some c => domain c
  | None => None
  end.

(** [manifest.ownership.team if manifest.ownership else None] *)
Definition manifest_team (m : SCPManifest) : option string :=
  match ownership m with
  | Some o => team o
  | None => None
  end.

(** [if xs: for x in xs: ...] iterates over nothing when [xs] is [None]. *)
Definition items {A : Type} (xs : option (list A)) : list A :=
  match xs with
  | Some l => l
  | None => []
  end.

(** ** [export_json] *)

Record json_state : Type := JsonState {
  nodes : list dict;
  edges : list dict;
  seen_urns : gset string;
}.

Record meta : Type := Meta {
  systems_count : nat;
  capabilities_count : nat;
  dependencies_count : nat;
}.

Record graph : Type := Graph {
  g_nodes : list dict;
  g_edges : list dict;
  g_meta : meta;
}.

Definition system_node (m : SCPManifest) : dict :=
  [ ("id", VStr (urn (system m)));
    ("type", VStr "System");
    ("name", VStr (name (system m)));
    ("tier", opt_int (system_tier (system m)));
    ("domain", opt_str (system_domain (system m)));
    ("team", opt_str (manifest_team m)) ].

Definition stub_node (target : string) (nm : string) : dict :=
  [ ("id", VStr target);
    ("type", VStr "System");
    ("name", VStr nm);
    ("stub", VBool true) ].

Definition depends_edge (u : string) (dep : Dependency) : dict :=
  [ ("from", VStr u);
    ("to", VStr (dep_system dep));
    ("type", VStr "DEPENDS_ON");
    ("capability", opt_str (dep_capability dep));
    ("criticality", opt_str (dep_criticality dep));
    ("failure_mode", opt_str (dep_failure_mode dep)) ].

(** [f"{urn}:{cap.capability}"] *)
Definition cap_id (u : string) (cap : Capability) : string :=
  u +:+ ":" +:+ cap_capability cap.

Definition capability_node (u : string) (cap : Capability) : dict :=
  [ ("id", VStr (cap_id u cap));
    ("type", VStr "Capability");
    ("name", VStr (cap_capability cap));
    ("capability_type", opt_str (cap_type cap)) ].

Definition provides_edge (u : string) (cap : Capability) : dict :=
  [ ("from", VStr u);
    ("to", VStr (cap_id u cap));
    ("type", VStr "PROVIDES") ].

(** Lines 25-34: the system node, unless its URN was seen. *)
Definition add_system (m : SCPManifest) (st : json_state) : json_state :=
  let u := urn (system m) in
  if decide (u ∈ seen_urns st) then st
  else {| nodes := nodes st ++ [system_node m];
          edges := edges st;
          seen_urns := seen_urns st ∪ {[u]} |}.

(** Lines 40-47: the stub node for an unseen dependency target. *)
Definition add_stub (st : json_state) (dep : Dependency) : result json_state :=
  if decide (dep_system dep ∈ seen_urns st) then Ok st
  else
    nm ← list_last (str_split ":" (dep_system dep));
    Ok {| nodes := nodes st ++ [stub_node (dep_system dep) nm];
          edges := edges st;
          seen_urns := seen_urns st ∪ {[dep_system dep]} |}.

(** Lines 49-56: the DEPENDS_ON edge. *)
Definition add_depends_edge (u : string) (st : json_state) (dep : Dependency)
  : json_state :=
  {| nodes := nodes st;
     edges := edges st ++ [depends_edge u dep];
     seen_urns := seen_urns st |}.

(** Lines 38-56: the body of the loop over [manifest.depends]. *)
Definition add_dependency (u : string) (st : json_state) (dep : Dependency)
  : result json_state :=
  st1 ← add_stub st dep;
  Ok (add_depends_edge u st1 dep).

(** Lines 60-72: the body of the loop over [manifest.provides]. *)
Definition add_capability (u : string) (st : json_state) (cap : Capability)
  : json_state :=
  {| nodes := nodes st ++ [capability_node u cap];
     edges := edges st ++ [provides_edge u cap];
     seen_urns := seen_urns st |}.

(** Lines 21-72: the body of the loop over [manifests]. *)
Definition add_manifest (st : json_state) (m : SCPManifest) : result json_state :=
  let u := urn (system m) in
  let st1 := add_system m st in
  st2 ← foldlM (add_dependency u) st1 (items (depends m));
  Ok (foldl (add_capability u) st2 (items (provides m))).

(** [[x for x in l if x["type"] == ty]] *)
Fixpoint of_type (ty : string) (l : list dict) : result (list dict) :=
  match l with
  | [] => Ok []
  | x :: l' =>
      t ← dict_item x "type";
      r ← of_type ty l';
      Ok (if decide (t = VStr ty) then x :: r else r)
  end.

Definition init_state : json_state :=
  {| nodes := []; edges := []; seen_urns := ∅ |}.

Definition export_json (manifests : list SCPManifest) : result graph :=
  st ← foldlM add_manifest init_state manifests;
  sys ← of_type "System" (nodes st);
  caps ← of_type "Capability" (nodes st);
  deps ← of_type "DEPENDS_ON" (edges st);
  Ok {| g_nodes := nodes st;
        g_edges := edges st;
        g_meta := {| systems_count := length sys;
                     capabilities_count := length caps;
                     dependencies_count := length deps |} |}.

(** ** [export_mermaid] *)

(** [_urn_to_id]: [parts[-1] if parts else urn], hyphens made underscores. *)
Definition _urn_to_id (u : string) : string :=
  let parts := str_split ":" u in
  let nm := match last parts with
            | Some x => x
            | None => u
            end in
  str_replace "-" "_" nm.

(** The per-system record [{"id": ..., "name": ..., "tier": ...}]. *)
Record info : Type := Info {
  info_id : string;
  info_name : string;
  info_tier : option Z;
}.

Record mermaid_state : Type := MermaidState {
  systems : odict info;
  dependencies : list (string * string * option string);
}.

Definition nl : string := String "010"%char EmptyString.
Definition dquote : string := String "034"%char EmptyString.

(** Lines 133-139: the node line, its shape chosen by [tier]. *)
Definition node_line (i : info) : string :=
  if decide (info_tier i = Some 1%Z) then
    "    " +:+ info_id i +:+ "[[" +:+ dquote +:+ "🔴 " +:+ info_name i
      +:+ dquote +:+ "]]"
  else if decide (info_tier i = Some 2%Z) then
    "    " +:+ info_id i +:+ "[" +:+ dquote +:+ "🟡 " +:+ info_name i
      +:+ dquote +:+ "]"
  else
    "    " +:+ info_id i +:+ "[" +:+ dquote +:+ info_name i +:+ dquote +:+ "]".

(** [if capability:] holds for a non-empty string only. *)
Definition truthy (o : option string) : bool :=
  match o with
  | Some (String _ _) => true
  | _ => false
  end.

(** Lines 145-151: the edge line of one recorded dependency. *)
Definition edge_line (sys : odict info) (d : string * string * option string)
  : result string :=
  let '(from_urn, to_urn, capability) := d in
  from_info ← dict_item sys from_urn;
  to_info ← dict_item sys to_urn;
  Ok (if truthy capability then
        "    " +:+ info_id from_info +:+ " -->|" +:+ default EmptyString capability
          +:+ "| " +:+ info_id to_info
      else
        "    " +:+ info_id from_info +:+ " --> " +:+ info_id to_info).

Fixpoint edge_lines (sys : odict info)
    (ds : list (string * string * option string)) : result (list string) :=
  match ds with
  | [] => Ok []
  | d :: ds' =>
      ln ← edge_line sys d;
      r ← edge_lines sys ds';
      Ok (ln :: r)
  end.

(** [[info["id"] for info in systems.values() if info["tier"] == 1]] *)
Definition tier1_ids (sys : odict info) : list string :=
  map info_id (filter (fun i => info_tier i = Some 1%Z) (map snd sys)).

(** Lines 157-160: the style block, present only with a tier-1 system. *)
Definition style_lines (sys : odict info) : list string :=
  match tier1_ids sys with
  | [] => []
  | ids =>
      [ "    classDef critical fill:#ff6b6b,stroke:#333,stroke-width:2px";
        "    class " +:+ str_join "," ids +:+ " critical" ]
  end.

Section Mermaid.

(** Python's [str.title]; its Unicode case tables stay abstract. *)
Variable title : string -> string.

(** Lines 112-123: the body of the loop over [manifest.depends]. *)
Definition record_dependency (u : string) (st : mermaid_state)
    (dep : Dependency) : result mermaid_state :=
  let deps :=
    (dependencies st ++ [(u, dep_system dep, dep_capability dep)])%list in
  if dict_mem (dep_system dep) (systems st) then
    Ok {| systems := systems st; dependencies := deps |}
  else
    let dep_id := _urn_to_id (dep_system dep) in
    seg ← list_last (str_split ":" (dep_system dep));
    let dep_name := title (str_replace "-" " " seg) in
    Ok {| systems := dict_set (dep_system dep)
                       {| info_id := dep_id; info_name := dep_name;
                          info_tier := None |} (systems st);
          dependencies := deps |}.

(** Lines 101-123: the body of the loop over [manifests]. *)
Definition register_manifest (st : mermaid_state) (m : SCPManifest)
  : result mermaid_state :=
  let u := urn (system m) in
  let short_id := _urn_to_id u in
  let st1 := {| systems := dict_set u
                             {| info_id := short_id;
                                info_name := name (system m);
                                info_tier := system_tier (system m) |}
                             (systems st);
                dependencies := dependencies st |} in
  foldlM (record_dependency u) st1 (items (depends m)).

Definition init_mermaid : mermaid_state :=
  {| systems := []; dependencies := [] |}.

(** The final value of the local [lines]. *)
Definition mermaid_lines (manifests : list SCPManifest) (direction : string)
  : result (list string) :=
  st ← foldlM register_manifest init_mermaid manifests;
  els ← edge_lines (systems st) (dependencies st);
  Ok (["flowchart " +:+ direction]
      ++ [EmptyString; "    %% Systems"]
      ++ map node_line (map snd (systems st))
      ++ [EmptyString; "    %% Dependencies"]
      ++ els
      ++ [EmptyString; "    %% Styling"]
      ++ style_lines (systems st))%list.

Definition export_mermaid (manifests : list SCPManifest) (direction : string)
  : result string :=
  lns ← mermaid_lines manifests direction;
  Ok (str_join nl lns).

End Mermaid.

(** [str.title] on ASCII text: the first letter of every run of letters is
    upper-cased and the rest of the run lower-cased. *)
Definition is_upper (c : ascii) : bool :=
  let n := nat_of_ascii c in (65 <=? n)%nat && (n <=? 90)%nat.
Definition is_lower (c : ascii) : bool :=
  let n := nat_of_ascii c in (97 <=? n)%nat && (n <=? 122)%nat.
Definition to_upper (c : ascii) : ascii :=
  if is_lower c then ascii_of_nat (nat_of_ascii c - 32) else c.
Definition to_lower (c : ascii) : ascii :=
  if is_upper c then ascii_of_nat (nat_of_ascii c + 32) else c.

Fixpoint title_from (prev_cased : bool) (s : string) : string :=
  match s with
  | EmptyString => EmptyString
  | String c s' =>
      if is_upper c || is_lower c then
        String (if prev_cased then to_lower c else to_upper c) (title_from true s')
      else String c (title_from false s')
  end.

Definition ascii_title (s : string) : string := title_from false s.

(** * scp_constructor.cli: the commands [scan], [scan-github] and [validate]

    The commands of [packages/constructor/src/scp_constructor/cli.py], after
    argument parsing.  What a command shows or writes is a list of events, in
    order; how it ends is a normal return or a raised exception
    ([typer.Exit] with its code, or an exception nothing catches).  The
    collaborators the module imports and the library calls it makes are
    parameters; a [console.print] of a string raises when Rich's markup
    parser rejects the string. *)

(** ** Effects *)

(** What was shown or written: a [console.print] of a string the markup
    parser accepted, of nothing, of a [Panel], of a [Syntax], and a call of
    [Path.write_text]. *)
Inductive event : Type :=
| Print (text : string)
| PrintBlank
| PrintPanel (body title border_style : string)
| PrintSyntax (code lexer theme : string)
| WriteText (path content : string).

(** An exception that no handler of the module catches: the
    [FileNotFoundError] or [NotADirectoryError] of the directory scan, an
    exception of the exports, [rich.errors.MarkupError], or another exception
    of a collaborator or of [write_text]. *)
Inductive exception : Type :=
| PathError (msg : string)
| ExportFailure (e : exn)
| MarkupError (msg : string)
| Crash (what : string).

Inductive raised : Type :=
| TyperExit (code : Z)
| Uncaught (e : exception).

Inductive outcome (A : Type) : Type :=
| Returned (a : A)
| Raised (r : raised).
Arguments Returned {A} a.
Arguments Raised {A} r.

Definition cli (A : Type) : Type := list event * outcome A.

#[global] Instance cli_ret : MRet cli := fun A a => ([], Returned a).
#[global] Instance cli_bind : MBind cli := fun A B f c =>
  match c with
  | (t, Raised r) => (t, Raised r)
  | (t, Returned a) => let (t', o) := f a in (t ++ t', o)
  end.

(** One more event in the list of what was shown or written. *)
Definition emit (e : event) : cli unit := ([e], Returned tt).
Definition throw {A : Type} (r : raised) : cli A := ([], Raised r).

(** A [for] loop over [l] threading the mutated locals. *)
Fixpoint cli_fold {S B : Type} (body : S -> B -> cli S) (st : S) (l : list B)
  : cli S :=
  match l with
  | [] => mret st
  | x :: l' => st' ← body st x; cli_fold body st' l'
  end.

(** ** What the collaborators return *)

(** Modelled from the spec: one entry of [SCPParseError.errors], a dict with
    the optional keys ["loc"] (field path, names and indices) and ["msg"]
    (the field-path/message pairs of the error-handling section). *)
Inductive loc_item : Type :=
| LocName (s : string)
| LocIndex (i : Z).

Record error_detail : Type := {
  ed_loc : option (list loc_item);
  ed_msg : option string;
}.

(** Modelled from the spec: the exception [parser.SCPParseError], by its
    [str()] and its [errors] list. *)
Record SCPParseError : Type := {
  pe_text : string;
  pe_errors : list error_detail;
}.

(** [load_scp(path)]: the manifest, an [SCPParseError], or another exception. *)
Inductive load_outcome : Type :=
| Loaded (manifest : SCPManifest)
| ParseFailed (e : SCPParseError)
| LoadCrash (what : string).

(** [scan_directory(path)]: the files, a [FileNotFoundError] or
    [NotADirectoryError] (by its [str()]), or another exception. *)
Inductive dir_outcome : Type :=
| DirFiles (files : list string)
| DirMissing (msg : string)
| DirCrash (what : string).

(** [scan_github_org(org, token)]: the found files, each with its manifest and
    repository name, or an exception (by its [str()]). *)
Inductive github_outcome : Type :=
| GithubFiles (files : list (SCPManifest * string))
| GithubFailed (msg : string).

(** Modelled from the spec: the counters [sync_manifests] returns (creates
    against updates of the graph database synchronization). *)
Record sync_stats : Type := {
  systems_created : Z;
  systems_updated : Z;
  capabilities_created : Z;
  dependencies_created : Z;
}.

(** The [with Neo4jGraph(...) as graph:] statement, its body included (the
    two calls on [graph] and the print of the panel), by what can be seen of
    it: an exception leaves the statement before the panel is shown (raised
    by the constructor, by a call on [graph], while the panel is rendered, or
    by [__exit__]) and reaches the handler with its [str()]; or the sync
    returns its counters, the panel is shown, and leaving the block raises or
    not; or [__exit__] swallows an exception of the body and nothing is
    shown. *)
Inductive session_outcome : Type :=
| SessionFailed (msg : string)
| SessionSynced (stats : sync_stats) (closing : option string)
| SessionSuppressed.

(** [str(l)] for an element of ["loc"]. *)
Definition loc_str (l : loc_item) : string :=
  match l with
  | LocName s => s
  | LocIndex i => pretty i
  end.

Section Cli.

(** Python's [str.title] and [json.dumps(data, indent=2)]. *)
Variable title : string -> string.
Variable json_dumps : graph -> string.

(** Rich's markup parser on a string handed to [console.print] (the module's
    [Console()] leaves markup on): [None] when the string is accepted,
    [Some msg] when the parser raises [MarkupError(msg)], as it does for a
    closing tag that closes nothing. *)
Variable markup_error : string -> option string.

(** [Path.is_file], [Path.write_text] (the exception it raises, if any) and
    the collaborators. *)
Variable is_file : string -> bool.
Variable write_text : string -> string -> option string.
Variable scan_directory : string -> dir_outcome.
Variable load_scp : string -> load_outcome.
Variable scan_github_org : string -> string -> github_outcome.
Variable neo4j_session :
  string -> string -> string -> list (SCPManifest * string) -> session_outcome.

(** [console.print(text)] for a string: the markup is parsed before anything
    is shown, so a rejected string shows nothing and raises.  The prints of
    nothing and of a [Syntax] parse no markup and are plain events. *)
Definition console_print (text : string) : cli unit :=
  match markup_error text with
  | None => emit (Print text)
  | Some msg => throw (Uncaught (MarkupError msg))
  end.

(** *** [validate] *)

(** Lines 227-228: the line shown for one of the first five errors. *)
Definition detail_line (err : error_detail) : string :=
  let loc := str_join "." (map loc_str (default [] (ed_loc err))) in
  "    - " +:+ loc +:+ ": " +:+ default "Unknown error" (ed_msg err).

(** Lines 211-228: the body of the loop over [files]. *)
Definition validate_file (errors : nat) (scp_file : string) : cli nat :=
  match load_scp scp_file with
  | Loaded manifest =>
      console_print ("✓ [green]" +:+ scp_file +:+ "[/]");;
      console_print ("  System: " +:+ name (system manifest) +:+ " ("
                     +:+ urn (system manifest) +:+ ")");;
      (match items (depends manifest) with
       | [] => mret tt
       | deps => console_print ("  Dependencies: " +:+ pretty (length deps))
       end);;
      (match items (provides manifest) with
       | [] => mret tt
       | caps => console_print ("  Capabilities: " +:+ pretty (length caps))
       end);;
      mret errors
  | ParseFailed e =>
      let errors := S errors in
      console_print ("✗ [red]" +:+ scp_file +:+ "[/]");;
      console_print ("  Error: " +:+ pe_text e);;
      cli_fold (fun _ err => console_print (detail_line err)) tt
        (take 5 (pe_errors e));;
      mret errors
  | LoadCrash what => throw (Uncaught (Crash what))
  end.

Definition validate (path : string) : cli unit :=
  files ← (if is_file path then mret [path]
           else match scan_directory path with
                | DirFiles files => mret files
                | DirMissing msg => throw (Uncaught (PathError msg))
                | DirCrash what => throw (Uncaught (Crash what))
                end);
  (match files with
   | [] => console_print "[yellow]No SCP files found[/]";; throw (TyperExit 0)
   | _ => mret tt
   end);;
  errors ← cli_fold validate_file 0%nat files;
  match errors with
  | O => console_print (nl +:+ "[green]All " +:+ pretty (length files)
                        +:+ " file(s) valid[/]")
  | _ => console_print (nl +:+ "[red]" +:+ pretty errors
                        +:+ " file(s) failed validation[/]");;
         throw (TyperExit 1)
  end.

(** *** The blocks [scan] and [scan-github] share *)

(** [a and b and c] on the three connection options. *)
Definition neo4j_configured (uri user password : option string) : bool :=
  truthy uri && truthy user && truthy password.

(** Lines 72-89 (and the same text at 151-168): the sync to Neo4j, when
    configured.  The handler's own print is outside every [try]. *)
Definition sync_block (manifests : list (SCPManifest * string))
    (neo4j_uri neo4j_user neo4j_password : option string) : cli unit :=
  if neo4j_configured neo4j_uri neo4j_user neo4j_password then
    let uri := default EmptyString neo4j_uri in
    console_print (nl +:+ "[bold blue]Syncing to Neo4j[/] " +:+ uri);;
    let panel (stats : sync_stats) :=
      PrintPanel
        ("Systems: " +:+ pretty (systems_created stats) +:+ " created, "
         +:+ pretty (systems_updated stats) +:+ " updated" +:+ nl
         +:+ "Capabilities: " +:+ pretty (capabilities_created stats) +:+ nl
         +:+ "Dependencies: " +:+ pretty (dependencies_created stats))
        "Graph Stats" "green" in
    let failed (msg : string) : cli unit :=
      console_print ("[red]Neo4j Error:[/] " +:+ msg);; throw (TyperExit 1) in
    match neo4j_session uri (default EmptyString neo4j_user)
            (default EmptyString neo4j_password) manifests with
    | SessionFailed msg => failed msg
    | SessionSynced stats None => emit (panel stats)
    | SessionSynced stats (Some msg) => emit (panel stats);; failed msg
    | SessionSuppressed => mret tt
    end
  else mret tt.

(** Lines 92-112 (and the same text at 171-191): the export, when
    requested. *)
Definition export_block (manifests : list (SCPManifest * string))
    (export_format output : option string) : cli unit :=
  if truthy export_format then
    let fmt := default EmptyString export_format in
    let manifest_list := map fst manifests in
    content ←
      (if String.eqb fmt "json" then
         match export_json manifest_list with
         | Ok data => mret (json_dumps data)
         | Raise e => throw (Uncaught (ExportFailure e))
         end
       else if String.eqb fmt "mermaid" then
         match export_mermaid title manifest_list "LR" with
         | Ok text => mret text
         | Raise e => throw (Uncaught (ExportFailure e))
         end
       else
         console_print ("[red]Unknown export format:[/] " +:+ fmt);;
         throw (TyperExit 1));
    match output with
    | Some out =>
        emit (WriteText out content);;
        (match write_text out content with
         | None => mret tt
         | Some what => throw (Uncaught (Crash what))
         end);;
        console_print (nl +:+ "[green]Exported to[/] " +:+ out)
    | None =>
        emit PrintBlank;;
        if String.eqb fmt "mermaid" then
          emit (PrintSyntax content "text" "monokai")
        else
          emit (PrintSyntax content "json" "monokai")
    end
  else mret tt.

(** *** [scan] *)

(** Lines 59-66: the body of the loop over [scp_files], on the locals
    [manifests] and [errors]. *)
Definition scan_file (st : list (SCPManifest * string) * list SCPParseError)
    (scp_file : string) : cli (list (SCPManifest * string) * list SCPParseError) :=
  let (manifests, errors) := st in
  match load_scp scp_file with
  | Loaded manifest =>
      console_print ("  ✓ [green]" +:+ name (system manifest) +:+ "[/] ("
                     +:+ urn (system manifest) +:+ ")");;
      mret (manifests ++ [(manifest, scp_file)], errors)
  | ParseFailed e =>
      console_print ("  ✗ [red]" +:+ scp_file +:+ "[/]: " +:+ pe_text e);;
      mret (manifests, errors ++ [e])
  | LoadCrash what => throw (Uncaught (Crash what))
  end.

Definition scan (path : string)
    (neo4j_uri neo4j_user neo4j_password export_format output : option string)
  : cli unit :=
  console_print ("[bold blue]Scanning[/] " +:+ path);;
  scp_files ← match scan_directory path with
              | DirFiles files => mret files
              | DirMissing msg =>
                  console_print ("[red]Error:[/] " +:+ msg);;
                  throw (TyperExit 1)
              | DirCrash what => throw (Uncaught (Crash what))
              end;
  (match scp_files with
   | [] => console_print "[yellow]No scp.yaml files found[/]";;
           throw (TyperExit 0)
   | _ => mret tt
   end);;
  console_print ("Found [green]" +:+ pretty (length scp_files)
                 +:+ "[/] SCP files" +:+ nl);;
  '(manifests, errors) ← cli_fold scan_file ([], []) scp_files;
  (match errors with
   | [] => mret tt
   | _ => console_print (nl +:+ "[yellow]Warning:[/] "
                         +:+ pretty (length errors)
                         +:+ " files failed to parse")
   end);;
  sync_block manifests neo4j_uri neo4j_user neo4j_password;;
  export_block manifests export_format output.

(** *** [scan-github] *)

Definition scan_github (org : string)
    (token neo4j_uri neo4j_user neo4j_password export_format output
       : option string) : cli unit :=
  (if truthy token then mret tt
   else console_print "[red]Error:[/] GitHub token required (--token or GITHUB_TOKEN env var)";;
        throw (TyperExit 1));;
  console_print ("[bold blue]Scanning GitHub org[/] " +:+ org);;
  scp_files ← match scan_github_org org (default EmptyString token) with
              | GithubFiles files => mret files
              | GithubFailed msg =>
                  console_print ("[red]GitHub API Error:[/] " +:+ msg);;
                  throw (TyperExit 1)
              end;
  (match scp_files with
   | [] => console_print "[yellow]No scp.yaml files found[/]";;
           throw (TyperExit 0)
   | _ => mret tt
   end);;
  console_print ("Found [green]" +:+ pretty (length scp_files)
                 +:+ "[/] SCP files" +:+ nl);;
  cli_fold (fun _ scp_file =>
              console_print ("  ✓ [green]" +:+ name (system (fst scp_file))
                             +:+ "[/] (" +:+ snd scp_file +:+ ")"))
    tt scp_files;;
  let manifests := scp_files in
  sync_block manifests neo4j_uri neo4j_user neo4j_password;;
  export_block manifests export_format output.

End Cli.

(** * Specification vocabulary

    The definitions of this part are not taken from [export.py]: they name
    what the properties below talk about.  For [export_json] they restate the
    emission order in the words of the specification (per manifest the system
    node if new, then the stubs of its dependencies, then its capability
    nodes); the loops of the source are shown to compute exactly these
    lists. *)

(** ** Strings *)

(** [c in s] *)
Fixpoint has_char (c : ascii) (s : string) : bool :=
  match s with
  | EmptyString => false
  | String a s' => Ascii.eqb a c || has_char c s'
  end.

(** The value of [s.split(":")[-1]]. *)
Definition last_segment (s : string) : string :=
  match last (str_split ":" s) with
  | Some x => x
  | None => s
  end.

(** ** What [export_json] appends, in order *)

(** The system node of [m], unless its URN is in [seen]. *)
Definition sys_nodes (seen : gset string) (m : SCPManifest) : list dict :=
  if decide (urn (system m) ∈ seen) then [] else [system_node m].

(** The stub of [dep]'s target, unless that URN is in [seen]. *)
Definition stub_nodes (seen : gset string) (dep : Dependency) : list dict :=
  if decide (dep_system dep ∈ seen) then []
  else [stub_node (dep_system dep) (last_segment (dep_system dep))].

(** The stubs of a dependency list, each target marked seen in turn. *)
Fixpoint deps_nodes (seen : gset string) (deps : list Dependency) : list dict :=
  match deps with
  | [] => []
  | d :: ds => stub_nodes seen d ++ deps_nodes (seen ∪ {[dep_system d]}) ds
  end.

(** The URNs a dependency list, a manifest, a manifest sequence mark seen. *)
Definition dep_targets (deps : list Dependency) : gset string :=
  list_to_set (map dep_system deps).

Definition manifest_urns (m : SCPManifest) : gset string :=
  {[urn (system m)]} ∪ dep_targets (items (depends m)).

(** One manifest: system node, then dependency stubs, then capability nodes;
    DEPENDS_ON edges, then PROVIDES edges. *)
Definition manifest_nodes (seen : gset string) (m : SCPManifest) : list dict :=
  sys_nodes seen m
  ++ deps_nodes (seen ∪ {[urn (system m)]}) (items (depends m))
  ++ map (capability_node (urn (system m))) (items (provides m)).

Definition manifest_edges (m : SCPManifest) : list dict :=
  map (depends_edge (urn (system m))) (items (depends m))
  ++ map (provides_edge (urn (system m))) (items (provides m)).

(** A manifest sequence: the manifests' contributions in input order. *)
Fixpoint ordered_nodes (seen : gset string) (ms : list SCPManifest) : list dict :=
  match ms with
  | [] => []
  | m :: ms' => manifest_nodes seen m ++ ordered_nodes (seen ∪ manifest_urns m) ms'
  end.

Fixpoint ordered_edges (ms : list SCPManifest) : list dict :=
  match ms with
  | [] => []
  | m :: ms' => manifest_edges m ++ ordered_edges ms'
  end.

Fixpoint all_urns (ms : list SCPManifest) : gset string :=
  match ms with
  | [] => ∅
  | m :: ms' => manifest_urns m ∪ all_urns ms'
  end.

(** ** Records, identifiers and invariants *)

(** [d["type"] == ty] *)
Definition has_type (ty : string) (d : dict) : Prop :=
  dict_get "type" d = Some (VStr ty).

#[global] Instance has_type_dec ty d : Decision (has_type ty d).
Proof. unfold has_type. apply _. Defined.

(** Every emitted record has a ["type"] entry, so the comprehensions of the
    [meta] block never raise. *)
Definition typed (d : dict) : Prop := is_Some (dict_get "type" d).

(** An edge field [k] resolves when some node record of type [ty] carries its
    value as ["id"]. *)
Definition resolves (ty : string) (ns : list dict) (e : dict) (k : string)
  : Prop :=
  exists v n, dict_get k e = Some v /\ n ∈ ns /\ dict_get "id" n = Some v /\
              has_type ty n.

(** Both ends of an edge resolve: ["from"] to a System node, ["to"] to a
    System node for a DEPENDS_ON edge and to a Capability node for a PROVIDES
    edge. *)
Definition edge_resolved (ns : list dict) (e : dict) : Prop :=
  resolves "System" ns e "from" /\
  ((has_type "DEPENDS_ON" e /\ resolves "System" ns e "to") \/
   (has_type "PROVIDES" e /\ resolves "Capability" ns e "to")).

(** Every seen URN has a System node, and every edge appended so far has both
    endpoints among the nodes appended so far. *)
Record linked (st : json_state) : Prop := Linked {
  seen_has_node : forall u, u ∈ seen_urns st ->
    exists n, n ∈ nodes st /\ dict_get "id" n = Some (VStr u) /\ has_type "System" n;
  edges_resolved : Forall (edge_resolved (nodes st)) (edges st);
}.

(** The ["id"] entries of a node list, and those of its System-typed part. *)
Definition node_ids (ns : list dict) : list (option value) :=
  map (dict_get "id") ns.

Definition system_ids (ns : list dict) : list (option value) :=
  node_ids (filter (has_type "System") ns).

(** The capability identifiers of a manifest sequence, with repetitions. *)
Fixpoint cap_ids (ms : list SCPManifest) : list string :=
  match ms with
  | [] => []
  | m :: ms' => map (cap_id (urn (system m))) (items (provides m)) ++ cap_ids ms'
  end.

(** System-typed nodes have pairwise distinct identifiers, all of them seen. *)
Record distinct (st : json_state) : Prop := Distinct {
  system_ids_nodup : NoDup (system_ids (nodes st));
  system_ids_seen : forall x, x ∈ system_ids (nodes st) ->
    exists u, x = Some (VStr u) /\ u ∈ seen_urns st;
}.

(** A System-typed record whose identifier is [U]. *)
Definition system_for (U : string) (n : dict) : Prop :=
  has_type "System" n /\ dict_get "id" n = Some (VStr U).

#[global] Instance system_for_dec U n : Decision (system_for U n).
Proof. unfold system_for. apply _. Defined.

(** What first brings [U] into the output: the system node of the first
    manifest declaring it, or the stub of the first dependency on it. *)
Fixpoint first_node (U : string) (ms : list SCPManifest) : list dict :=
  match ms with
  | [] => []
  | m :: ms' =>
      if decide (urn (system m) = U) then [system_node m]
      else if decide (U ∈ dep_targets (items (depends m))) then
        [stub_node U (last_segment U)]
      else first_node U ms'
  end.

(** [U] is the URN of [m] or the target of one of its dependencies. *)
Definition mentions (U : string) (m : SCPManifest) : Prop :=
  urn (system m) = U \/ exists d, d ∈ items (depends m) /\ dep_system d = U.

(** [U] is the target of one of the dependencies of [m]. *)
Definition depends_on (U : string) (m : SCPManifest) : Prop :=
  exists d, d ∈ items (depends m) /\ dep_system d = U.

(** ** The registry of [export_mermaid] *)

(** [d.keys()] and [d.values()], in insertion order. *)
Definition keys {V : Type} (d : odict V) : list string := map fst d.
Definition values {V : Type} (d : odict V) : list V := map snd d.

(** The entry a manifest registers for its own system. *)
Definition manifest_info (m : SCPManifest) : info :=
  {| info_id := _urn_to_id (urn (system m));
     info_name := name (system m);
     info_tier := system_tier (system m) |}.

(** The triple recorded for one dependency of the system [u]. *)
Definition dep_triple (u : string) (dep : Dependency)
  : string * string * option string :=
  (u, dep_system dep, dep_capability dep).

(** The final value of the local [dependencies]. *)
Fixpoint all_triples (ms : list SCPManifest)
  : list (string * string * option string) :=
  match ms with
  | [] => []
  | m :: ms' => map (dep_triple (urn (system m))) (items (depends m)) ++ all_triples ms'
  end.

(** Both ends of every recorded dependency are registered. *)
Definition covered (sys : odict info) (d : string * string * option string)
  : Prop :=
  d.1.1 ∈ keys sys /\ d.1.2 ∈ keys sys.

Section MermaidVocabulary.

(** Python's [str.title], abstract as in the model. *)
Variable title : string -> string.

(** The entry synthesized for an unregistered dependency target. *)
Definition stub_info (t : string) : info :=
  {| info_id := _urn_to_id t;
     info_name := title (str_replace "-" " " (last_segment t));
     info_tier := None |}.

(** The effect of one dependency on the local [systems]. *)
Definition record_stub (sys : odict info) (dep : Dependency) : odict info :=
  if dict_mem (dep_system dep) sys then sys
  else dict_set (dep_system dep) (stub_info (dep_system dep)) sys.

(** The effect of one manifest on the local [systems]. *)
Definition register_systems (sys : odict info) (m : SCPManifest) : odict info :=
  foldl record_stub (dict_set (urn (system m)) (manifest_info m) sys)
    (items (depends m)).

(** The registry holds no entry for [U], or the stub entry. *)
Definition stub_or_absent (U : string) (sys : odict info) : Prop :=
  dict_get U sys = None \/ dict_get U sys = Some (stub_info U).

End MermaidVocabulary.

(** ** First mentions and dependency lines *)

(** The dependency targets not in [seen], each listed once, in order. *)
Fixpoint fresh_deps (seen : gset string) (deps : list Dependency) : list string :=
  match deps with
  | [] => []
  | d :: ds =>
      (if decide (dep_system d ∈ seen) then [] else [dep_system d])
      ++ fresh_deps (seen ∪ {[dep_system d]}) ds
  end.

(** The URNs a manifest sequence mentions (as a system or as a dependency
    target) and that are not in [seen], each listed once, by first mention. *)
Fixpoint fresh_urns (seen : gset string) (ms : list SCPManifest) : list string :=
  match ms with
  | [] => []
  | m :: ms' =>
      (if decide (urn (system m) ∈ seen) then [] else [urn (system m)])
      ++ fresh_deps (seen ∪ {[urn (system m)]}) (items (depends m))
      ++ fresh_urns (seen ∪ manifest_urns m) ms'
  end.

(** The diagram line of one dependency of the system [u], written with the
    identifiers derived from the two URNs. *)
Definition dependency_line (u : string) (dep : Dependency) : string :=
  if truthy (dep_capability dep) then
    "    " +:+ _urn_to_id u +:+ " -->|" +:+ default EmptyString (dep_capability dep)
      +:+ "| " +:+ _urn_to_id (dep_system dep)
  else
    "    " +:+ _urn_to_id u +:+ " --> " +:+ _urn_to_id (dep_system dep).

(** The dependency lines of a manifest sequence, in input order. *)
Fixpoint dependency_lines (ms : list SCPManifest) : list string :=
  match ms with
  | [] => []
  | m :: ms' =>
      map (dependency_line (urn (system m))) (items (depends m))
      ++ dependency_lines ms'
  end.

(** Every entry of the registry carries the identifier derived from its key. *)
Definition ids_derived (sys : odict info) : Prop :=
  forall u inf, dict_get u sys = Some inf -> info_id inf = _urn_to_id u.

(** What a node or an edge of the output was built from. *)
Definition node_origin (ms : list SCPManifest) (n : dict) : Prop :=
  (exists m, m ∈ ms /\ n = system_node m) \/
  (exists m d, m ∈ ms /\ d ∈ items (depends m) /\
               n = stub_node (dep_system d) (last_segment (dep_system d))) \/
  (exists m c, m ∈ ms /\ c ∈ items (provides m) /\
               n = capability_node (urn (system m)) c).

Definition edge_origin (ms : list SCPManifest) (e : dict) : Prop :=
  (exists m d, m ∈ ms /\ d ∈ items (depends m) /\
               e = depends_edge (urn (system m)) d) \/
  (exists m c, m ∈ ms /\ c ∈ items (provides m) /\
               e = provides_edge (urn (system m)) c).

(** ** The commands *)


(** How a command may end: normally, with exit code 0 or 1, or with an
    exception of a collaborator, of [write_text] or of the markup parser
    that nothing catches. *)
Definition clean_ending {A : Type} (allow_path_error : bool) (o : outcome A)
  : Prop :=
  match o with
  | Returned _ => True
  | Raised (TyperExit code) => code = 0%Z \/ code = 1%Z
  | Raised (Uncaught (Crash _)) => True
  | Raised (Uncaught (MarkupError _)) => True
  | Raised (Uncaught (PathError _)) => allow_path_error = true
  | Raised (Uncaught (ExportFailure _)) => False
  end.

(** The lines [scan-github] prints before the sync, given what the GitHub
    scan returned. *)
Definition github_lines (org : string) (found : github_outcome) : list string :=
  ("[bold blue]Scanning GitHub org[/] " +:+ org)
  :: match found with
     | GithubFailed msg => ["[red]GitHub API Error:[/] " +:+ msg]
     | GithubFiles [] => ["[yellow]No scp.yaml files found[/]"]
     | GithubFiles files =>
         ("Found [green]" +:+ pretty (length files) +:+ "[/] SCP files" +:+ nl)
         :: map (fun f => "  ✓ [green]" +:+ name (system f.1) +:+ "[/] ("
                          +:+ f.2 +:+ ")") files
     end.

(** What the export block does with the exported [content]: written to the
    output path, with a confirmation line, or shown with the [lexer]. *)
Definition delivery (markup_error : string -> option string)
    (write_text : string -> string -> option string)
    (output : option string) (content lexer : string) : cli unit :=
  match output with
  | Some out =>
      match write_text out content with
      | Some what => ([WriteText out content], Raised (Uncaught (Crash what)))
      | None =>
          match markup_error (nl +:+ "[green]Exported to[/] " +:+ out) with
          | Some m => ([WriteText out content],
                       Raised (Uncaught (MarkupError m)))
          | None => ([WriteText out content;
                      Print (nl +:+ "[green]Exported to[/] " +:+ out)],
                     Returned tt)
          end
      end
  | None => ([PrintBlank; PrintSyntax content lexer "monokai"], Returned tt)
  end.

Section CliVocabulary.

Variable markup_error : string -> option string.
Variable load_scp : string -> load_outcome.

(** The markup parser accepts [text]. *)
Definition accepted (text : string) : Prop := markup_error text = None.

#[global] Instance accepted_dec text : Decision (accepted text).
Proof. unfold accepted. apply _. Defined.

(** Printing the lines [texts] one after the other. *)
Fixpoint print_lines (texts : list string) : cli unit :=
  match texts with
  | [] => mret tt
  | t :: ts => console_print markup_error t;; print_lines ts
  end.

(** [load_scp] raises nothing but [SCPParseError] on the file. *)
Definition no_crash (scp_file : string) : Prop :=
  forall what, load_scp scp_file <> LoadCrash what.

(** The files that load, each manifest with its path, in order. *)
Fixpoint parsed (files : list string) : list (SCPManifest * string) :=
  match files with
  | [] => []
  | f :: files' =>
      match load_scp f with
      | Loaded m => (m, f) :: parsed files'
      | _ => parsed files'
      end
  end.

(** The parse errors of the files that fail to load, in order. *)
Fixpoint failures (files : list string) : list SCPParseError :=
  match files with
  | [] => []
  | f :: files' =>
      match load_scp f with
      | ParseFailed e => e :: failures files'
      | _ => failures files'
      end
  end.

(** The lines of [validate] for one file. *)
Definition file_lines (scp_file : string) : list string :=
  match load_scp scp_file with
  | Loaded m =>
      [ "✓ [green]" +:+ scp_file +:+ "[/]";
        "  System: " +:+ name (system m) +:+ " (" +:+ urn (system m) +:+ ")" ]
      ++ match items (depends m) with
         | [] => []
         | deps => ["  Dependencies: " +:+ pretty (length deps)]
         end
      ++ match items (provides m) with
         | [] => []
         | caps => ["  Capabilities: " +:+ pretty (length caps)]
         end
  | ParseFailed e =>
      [ "✗ [red]" +:+ scp_file +:+ "[/]";
        "  Error: " +:+ pe_text e ]
      ++ map (fun err => "    - "
                         +:+ str_join "." (map loc_str (default [] (ed_loc err)))
                         +:+ ": " +:+ default "Unknown error" (ed_msg err))
           (take 5 (pe_errors e))
  | LoadCrash _ => []
  end.

(** The last line of [validate]. *)
Definition summary_line (files : list string) : string :=
  match failures files with
  | [] => nl +:+ "[green]All " +:+ pretty (length files) +:+ " file(s) valid[/]"
  | es => nl +:+ "[red]" +:+ pretty (length es) +:+ " file(s) failed validation[/]"
  end.

(** All the lines of [validate], and how it ends once they are printed. *)
Definition validate_lines (files : list string) : list string :=
  match files with
  | [] => ["[yellow]No SCP files found[/]"]
  | _ => concat (map file_lines files) ++ [summary_line files]
  end.

Definition validate_ending (files : list string) : outcome unit :=
  match files, failures files with
  | [], _ => Raised (TyperExit 0)
  | _, [] => Returned tt
  | _, _ => Raised (TyperExit 1)
  end.

(** The line of [scan] for one file. *)
Definition scan_line (scp_file : string) : list string :=
  match load_scp scp_file with
  | Loaded m =>
      ["  ✓ [green]" +:+ name (system m) +:+ "[/] (" +:+ urn (system m) +:+ ")"]
  | ParseFailed e =>
      ["  ✗ [red]" +:+ scp_file +:+ "[/]: " +:+ pe_text e]
  | LoadCrash _ => []
  end.

(** The lines of [scan] before the sync: the two header lines, one line per
    file, and the warning when some file failed to parse. *)
Definition scan_lines (path : string) (files : list string) : list string :=
  [ "[bold blue]Scanning[/] " +:+ path;
    "Found [green]" +:+ pretty (length files) +:+ "[/] SCP files" +:+ nl ]
  ++ concat (map scan_line files)
  ++ match failures files with
     | [] => []
     | es => [nl +:+ "[yellow]Warning:[/] " +:+ pretty (length es)
              +:+ " files failed to parse"]
     end.

End CliVocabulary.

(** ** Sample manifests (the fixtures of [tests/test_export.py], and variants) *)

Definition order_service : SCPManifest :=
  {| system := {| urn := "urn:scp:test:order-service";
                  name := "Order Service";
                  classification :=
                    Some {| tier := Some 1%Z; domain := Some "ordering" |} |};
     ownership := None;
     provides := Some [ {| cap_capability := "order-management";
                           cap_type := Some "rest" |} ];
     depends := Some [ {| dep_system := "urn:scp:test:user-service";
                          dep_capability := Some "user-lookup";
                          dep_criticality := Some "required";
                          dep_failure_mode := Some "fail-fast" |} ] |}.

Definition user_service : SCPManifest :=
  {| system := {| urn := "urn:scp:test:user-service";
                  name := "User Service";
                  classification :=
                    Some {| tier := Some 2%Z; domain := Some "identity" |} |};
     ownership := None;
     provides := Some [ {| cap_capability := "user-lookup";
                           cap_type := Some "rest" |} ];
     depends := None |}.

(** A second manifest for the URN of [user_service]. *)
Definition user_service_again : SCPManifest :=
  {| system := {| urn := "urn:scp:test:user-service";
                  name := "User Service (fork)";
                  classification :=
                    Some {| tier := Some 1%Z; domain := Some "accounts" |} |};
     ownership := Some {| team := Some "identity-team" |};
     provides := Some [ {| cap_capability := "user-admin";
                           cap_type := Some "grpc" |} ];
     depends := Some [ {| dep_system := "urn:scp:test:audit-log";
                          dep_capability := None;
                          dep_criticality := Some "optional";
                          dep_failure_mode := None |} ] |}.

(** Two systems whose URNs end in the same segment. *)
Definition billing_eu : SCPManifest :=
  {| system := {| urn := "urn:scp:eu:billing";
                  name := "Billing EU";
                  classification :=
                    Some {| tier := Some 1%Z; domain := Some "finance" |} |};
     ownership := None;
     provides := None;
     depends := None |}.

Definition billing_us : SCPManifest :=
  {| system := {| urn := "urn:scp:us:billing";
                  name := "Billing US";
                  classification :=
                    Some {| tier := Some 2%Z; domain := Some "finance" |} |};
     ownership := None;
     provides := None;
     depends := None |}.

(** A manifest whose system name holds a closing tag. *)
Definition orders_v2 : SCPManifest :=
  {| system := {| urn := "urn:scp:test:orders-v2";
                  name := "Orders [/v2]";
                  classification := None |};
     ownership := None;
     provides := None;
     depends := None |}.

(** ** Sample collaborators *)

(** A directory with two valid files and one invalid file, and a directory
    with the manifest [orders_v2]. *)
Definition sample_parse_error : SCPParseError :=
  {| pe_text := "2 validation errors";
     pe_errors :=
       [ {| ed_loc := Some [LocName "system"; LocName "urn"];
            ed_msg := Some "Field required" |};
         {| ed_loc := Some [LocName "depends"; LocIndex 0; LocName "system"];
            ed_msg := None |} ] |}.

Definition sample_load_scp (scp_file : string) : load_outcome :=
  if String.eqb scp_file "repo/orders/scp.yaml" then Loaded order_service
  else if String.eqb scp_file "repo/users/scp.yaml" then Loaded user_service
  else if String.eqb scp_file "legacy/orders/scp.yaml" then Loaded orders_v2
  else ParseFailed sample_parse_error.

Definition sample_scan_directory (path : string) : dir_outcome :=
  if String.eqb path "repo" then
    DirFiles ["repo/orders/scp.yaml"; "repo/broken/scp.yaml"; "repo/users/scp.yaml"]
  else if String.eqb path "legacy" then DirFiles ["legacy/orders/scp.yaml"]
  else DirMissing ("Directory not found: " +:+ path).

Definition sample_is_file (path : string) : bool :=
  String.eqb path "repo/orders/scp.yaml".

Definition sample_write_text (path content : string) : option string := None.

Definition sample_json_dumps (g : graph) : string := "{...}".

Definition sample_session (uri user password : string)
    (manifests : list (SCPManifest * string)) : session_outcome :=
  SessionFailed "Connection refused".

Definition sample_scan_github_org (org token : string) : github_outcome :=
  if String.eqb org "acme" then GithubFiles [(order_service, "acme/orders")]
  else GithubFailed "Not Found".

(** [p] occurs in [s]. *)
Fixpoint occurs (p s : string) : bool :=
  String.prefix p s
  || match s with
     | EmptyString => false
     | String _ s' => occurs p s'
     end.

(** A markup parser that rejects the closing tag [[/v2]], which no line of
    the module opens, and accepts every other string. *)
Definition sample_markup_error (text : string) : option string :=
  if occurs "[/v2]" text then
    Some "closing tag '[/v2]' doesn't match any open tag"
  else None.

(** * Properties *)

(** ** [split] and the last segment *)

Lemma str_split_nonempty sep s : str_split sep s <> [].
Proof. unfold str_split. by destruct (split_segments sep s). Qed.

Lemma str_split_no_sep sep s : has_char sep s = false -> str_split sep s = [s].
Proof.
  unfold str_split. induction s as [|a s IH]; simpl; [done|].
  intros H. apply orb_false_iff in H as [Ha Hs].
  specialize (IH Hs). destruct (split_segments sep s) as [h t].
  rewrite Ha. by simplify_eq.
Qed.

(** Joining the segments with the separator gives the string back. *)
Lemma str_split_join sep s :
  str_join (String sep EmptyString) (str_split sep s) = s.
Proof.
  unfold str_split. induction s as [|a s IH]; simpl; [done|].
  destruct (split_segments sep s) as [h t].
  destruct (Ascii.eqb_spec a sep) as [->|Hne].
  - simpl. by rewrite <- IH.
  - destruct t as [|h' t]; simpl in *; by rewrite <- IH.
Qed.

Lemma str_split_segments_clean sep s :
  Forall (fun seg => has_char sep seg = false) (str_split sep s).
Proof.
  unfold str_split. induction s as [|a s IH]; simpl.
  - by repeat constructor.
  - destruct (split_segments sep s) as [h t].
    destruct (Ascii.eqb a sep) eqn:Ha.
    + by constructor.
    + inversion IH; subst. constructor; [|done]. simpl. by rewrite Ha.
Qed.

Lemma list_last_split s : list_last (str_split ":" s) = Ok (last_segment s).
Proof.
  unfold list_last, last_segment.
  destruct (last (str_split ":" s)) eqn:E; [done|].
  apply last_None in E. by apply str_split_nonempty in E.
Qed.

Lemma last_segment_no_colon s : has_char ":" (last_segment s) = false.
Proof.
  unfold last_segment. destruct (last (str_split ":" s)) as [x|] eqn:E.
  - pose proof (str_split_segments_clean ":" s) as HF.
    rewrite Forall_forall in HF. apply HF.
    apply last_Some in E as [l' ->]. set_solver.
  - apply last_None in E. by apply str_split_nonempty in E.
Qed.

Lemma str_app_assoc (a b c : string) : (a +:+ b) +:+ c = a +:+ (b +:+ c).
Proof.
  induction a as [|x a IH]; [done|].
  change (String x ((a +:+ b) +:+ c) = String x (a +:+ (b +:+ c))).
  by rewrite IH.
Qed.

Lemma str_join_snoc sep l x :
  l <> [] -> str_join sep (l ++ [x]) = str_join sep l +:+ sep +:+ x.
Proof.
  induction l as [|y l IH]; [done|]. intros _.
  destruct l as [|z l].
  - done.
  - change (str_join sep ((y :: z :: l) ++ [x]))
      with (y +:+ sep +:+ str_join sep ((z :: l) ++ [x])).
    rewrite IH by done.
    change (str_join sep (y :: z :: l)) with (y +:+ sep +:+ str_join sep (z :: l)).
    by rewrite !str_app_assoc.
Qed.

(** The last segment is the whole string, or what follows its last colon. *)
Lemma last_segment_suffix s :
  s = last_segment s \/ exists p, s = p +:+ ":" +:+ last_segment s.
Proof.
  unfold last_segment. destruct (last (str_split ":" s)) as [x|] eqn:E; [|by left].
  apply last_Some in E as [l' E].
  pose proof (str_split_join ":" s) as HJ. rewrite E in HJ.
  destruct l' as [|y l'].
  - left. by rewrite <- HJ.
  - right. exists (str_join ":" (y :: l')).
    rewrite <- HJ at 1. by apply str_join_snoc.
Qed.

Lemma last_segment_whole s : has_char ":" s = false -> last_segment s = s.
Proof. intros H. unfold last_segment. by rewrite str_split_no_sep. Qed.

(** ** [export_json] in closed form *)

Lemma state_eq (st : json_state) ns es sn :
  nodes st = ns -> edges st = es -> seen_urns st = sn ->
  st = {| nodes := ns; edges := es; seen_urns := sn |}.
Proof. destruct st; simpl; by intros -> -> ->. Qed.

Lemma add_system_eq m st :
  add_system m st =
  {| nodes := nodes st ++ sys_nodes (seen_urns st) m;
     edges := edges st;
     seen_urns := seen_urns st ∪ {[urn (system m)]} |}.
Proof.
  unfold add_system, sys_nodes. case_decide; [|done].
  apply state_eq; [by rewrite app_nil_r | done | set_solver].
Qed.

Lemma add_stub_eq st dep :
  add_stub st dep =
  Ok {| nodes := nodes st ++ stub_nodes (seen_urns st) dep;
        edges := edges st;
        seen_urns := seen_urns st ∪ {[dep_system dep]} |}.
Proof.
  unfold add_stub, stub_nodes. case_decide.
  - f_equal. apply state_eq; [by rewrite app_nil_r | done | set_solver].
  - by rewrite list_last_split.
Qed.

Lemma add_dependency_eq u st dep :
  add_dependency u st dep =
  Ok {| nodes := nodes st ++ stub_nodes (seen_urns st) dep;
        edges := edges st ++ [depends_edge u dep];
        seen_urns := seen_urns st ∪ {[dep_system dep]} |}.
Proof. unfold add_dependency. by rewrite add_stub_eq. Qed.

Lemma run_dependencies_eq u deps st :
  foldlM (add_dependency u) st deps =
  Ok {| nodes := nodes st ++ deps_nodes (seen_urns st) deps;
        edges := edges st ++ map (depends_edge u) deps;
        seen_urns := seen_urns st ∪ dep_targets deps |}.
Proof.
  revert st. induction deps as [|d ds IH]; intros st; simpl.
  - f_equal. apply state_eq; [by rewrite app_nil_r..| set_solver].
  - rewrite add_dependency_eq. simpl. rewrite IH. simpl. f_equal.
    unfold dep_targets. simpl.
    f_equal; [by rewrite <- app_assoc | by rewrite <- app_assoc | set_solver].
Qed.

Lemma run_capabilities_eq u caps st :
  foldl (add_capability u) st caps =
  {| nodes := nodes st ++ map (capability_node u) caps;
     edges := edges st ++ map (provides_edge u) caps;
     seen_urns := seen_urns st |}.
Proof.
  revert st. induction caps as [|c cs IH]; intros st; simpl.
  - apply state_eq; by rewrite ?app_nil_r.
  - rewrite IH. simpl. f_equal; by rewrite <- app_assoc.
Qed.

Lemma add_manifest_eq st m :
  add_manifest st m =
  Ok {| nodes := nodes st ++ manifest_nodes (seen_urns st) m;
        edges := edges st ++ manifest_edges m;
        seen_urns := seen_urns st ∪ manifest_urns m |}.
Proof.
  unfold add_manifest. rewrite run_dependencies_eq. simpl.
  rewrite run_capabilities_eq, add_system_eq. simpl.
  unfold manifest_nodes, manifest_edges, manifest_urns.
  f_equal. f_equal; [by rewrite <- !app_assoc | by rewrite <- !app_assoc | set_solver].
Qed.

Lemma run_manifests_eq ms st :
  foldlM add_manifest st ms =
  Ok {| nodes := nodes st ++ ordered_nodes (seen_urns st) ms;
        edges := edges st ++ ordered_edges ms;
        seen_urns := seen_urns st ∪ all_urns ms |}.
Proof.
  revert st. induction ms as [|m ms IH]; intros st; simpl.
  - f_equal. apply state_eq; [by rewrite app_nil_r..| set_solver].
  - rewrite add_manifest_eq. simpl. rewrite IH. simpl.
    f_equal. f_equal; [by rewrite <- !app_assoc | by rewrite <- !app_assoc | set_solver].
Qed.

Lemma of_type_eq ty l :
  Forall typed l -> of_type ty l = Ok (filter (has_type ty) l).
Proof.
  induction 1 as [|x l [t Ht] _ IH]; [done|].
  cbn [of_type]. unfold dict_item. rewrite Ht. cbn. rewrite IH. cbn.
  repeat case_decide; unfold has_type in *; naive_solver.
Qed.

Lemma deps_nodes_typed seen deps : Forall typed (deps_nodes seen deps).
Proof.
  revert seen. induction deps as [|d ds IH]; intros seen; simpl; [done|].
  apply Forall_app. split; [|done].
  unfold stub_nodes. case_decide; repeat constructor. by eexists.
Qed.

Lemma manifest_nodes_typed seen m : Forall typed (manifest_nodes seen m).
Proof.
  unfold manifest_nodes. rewrite !Forall_app. split_and!.
  - unfold sys_nodes. case_decide; repeat constructor. by eexists.
  - apply deps_nodes_typed.
  - apply Forall_map, Forall_true. intros c. by eexists.
Qed.

Lemma ordered_nodes_typed seen ms : Forall typed (ordered_nodes seen ms).
Proof.
  revert seen. induction ms as [|m ms IH]; intros seen; simpl; [done|].
  apply Forall_app. split; [apply manifest_nodes_typed | done].
Qed.

Lemma ordered_edges_typed ms : Forall typed (ordered_edges ms).
Proof.
  induction ms as [|m ms IH]; simpl; [done|].
  apply Forall_app. split; [|done].
  unfold manifest_edges. apply Forall_app.
  split; apply Forall_map, Forall_true; intros c; by eexists.
Qed.

Lemma union_empty_seen (X : gset string) : ∅ ∪ X = X.
Proof. set_solver. Qed.

(** The whole of [export_json], in closed form. *)
Lemma export_json_eq ms :
  export_json ms =
  Ok {| g_nodes := ordered_nodes ∅ ms;
        g_edges := ordered_edges ms;
        g_meta :=
          {| systems_count := length (filter (has_type "System") (ordered_nodes ∅ ms));
             capabilities_count :=
               length (filter (has_type "Capability") (ordered_nodes ∅ ms));
             dependencies_count :=
               length (filter (has_type "DEPENDS_ON") (ordered_edges ms)) |} |}.
Proof.
  unfold export_json. rewrite run_manifests_eq. simpl.
  rewrite !of_type_eq by (apply ordered_nodes_typed || apply ordered_edges_typed).
  done.
Qed.

Lemma ordered_nodes_app seen l1 l2 :
  ordered_nodes seen (l1 ++ l2) =
  ordered_nodes seen l1 ++ ordered_nodes (seen ∪ all_urns l1) l2.
Proof.
  revert seen. induction l1 as [|m l1 IH]; intros seen; simpl.
  - f_equal. set_solver.
  - rewrite IH, <- app_assoc. do 3 f_equal. set_solver.
Qed.

Lemma ordered_edges_app l1 l2 :
  ordered_edges (l1 ++ l2) = ordered_edges l1 ++ ordered_edges l2.
Proof. induction l1 as [|m l1 IH]; simpl; [done|]. by rewrite IH, app_assoc. Qed.

Lemma all_urns_app l1 l2 : all_urns (l1 ++ l2) = all_urns l1 ∪ all_urns l2.
Proof. induction l1 as [|m l1 IH]; simpl; [set_solver|]. rewrite IH. set_solver. Qed.

(** ** Meta counts *)

(** C5: the three [meta] counts of [export_json] are the numbers of
    System-typed nodes, of Capability-typed nodes and of DEPENDS_ON-typed
    edges of the returned [nodes] and [edges] lists, for every manifest
    sequence. *)
Theorem export_json_meta_counts (ms : list SCPManifest) :
  exists g, export_json ms = Ok g /\
    systems_count (g_meta g) = length (filter (has_type "System") (g_nodes g)) /\
    capabilities_count (g_meta g)
      = length (filter (has_type "Capability") (g_nodes g)) /\
    dependencies_count (g_meta g)
      = length (filter (has_type "DEPENDS_ON") (g_edges g)).
Proof. rewrite export_json_eq. eexists. split; [done|]. by simpl. Qed.

(** ** Emission order *)

(** C9: the records contributed by a manifest follow those of every earlier
    manifest and precede those of every later one, in [nodes] and in [edges];
    inside its contribution the system node comes first, then the stubs of its
    dependencies, then its capability nodes, and its DEPENDS_ON edges all come
    before its PROVIDES edges. *)
Theorem export_json_emission_order (pre : list SCPManifest) (m : SCPManifest)
    (post : list SCPManifest) :
  exists g0 g, export_json pre = Ok g0 /\ export_json (pre ++ m :: post) = Ok g /\
    g_nodes g =
      g_nodes g0
      ++ (sys_nodes (all_urns pre) m
          ++ deps_nodes (all_urns pre ∪ {[urn (system m)]}) (items (depends m))
          ++ map (capability_node (urn (system m))) (items (provides m)))
      ++ ordered_nodes (all_urns (pre ++ [m])) post /\
    g_edges g =
      g_edges g0
      ++ (map (depends_edge (urn (system m))) (items (depends m))
          ++ map (provides_edge (urn (system m))) (items (provides m)))
      ++ ordered_edges post.
Proof.
  rewrite !export_json_eq. do 2 eexists. split_and!; [done..| |]; simpl.
  - rewrite ordered_nodes_app. simpl. rewrite !union_empty_seen.
    rewrite all_urns_app. simpl. unfold manifest_nodes.
    do 3 f_equal. set_solver.
  - rewrite ordered_edges_app. done.
Qed.

(** ** Loop invariants of [export_json] *)

Lemma foldlM_invariant {S B : Type} (P : S -> Prop) (body : S -> B -> result S)
    (l : list B) (st st' : S) :
  (forall s x s', P s -> body s x = Ok s' -> P s') ->
  P st -> foldlM body st l = Ok st' -> P st'.
Proof.
  intros Hstep. revert st. induction l as [|x l IH]; intros st HP; simpl.
  - by intros [= <-].
  - destruct (body st x) as [s1|e] eqn:E; simpl; [|done].
    apply IH. by eapply Hstep.
Qed.

Lemma foldl_invariant {S B : Type} (P : S -> Prop) (step : S -> B -> S)
    (l : list B) (st : S) :
  (forall s x, P s -> P (step s x)) -> P st -> P (foldl step st l).
Proof.
  intros Hstep. revert st. induction l as [|x l IH]; intros st HP; simpl; auto.
Qed.

Lemma resolves_mono ty ns extra e k :
  resolves ty ns e k -> resolves ty (ns ++ extra) e k.
Proof. intros (v & n & ? & ? & ?). exists v, n. set_solver. Qed.

Lemma edge_resolved_mono ns extra e :
  edge_resolved ns e -> edge_resolved (ns ++ extra) e.
Proof.
  intros [Hfrom [[Hty Hto]|[Hty Hto]]]; (split; [by apply resolves_mono|]);
    [left | right]; (split; [done | by apply resolves_mono]).
Qed.

Lemma linked_init : linked init_state.
Proof. split; simpl; [set_solver | constructor]. Qed.

Lemma linked_add_system m st :
  linked st ->
  linked (add_system m st) /\ urn (system m) ∈ seen_urns (add_system m st).
Proof.
  intros [Hs He]. unfold add_system. case_decide; [by split|].
  split; [split|]; simpl.
  - intros u [Hu|Hu]%elem_of_union.
    + destruct (Hs u Hu) as (n & ? & ?). exists n. set_solver.
    + apply elem_of_singleton in Hu as ->. exists (system_node m).
      split; [set_solver | done].
  - eapply Forall_impl; [done|]. intros e. apply edge_resolved_mono.
  - set_solver.
Qed.

Lemma linked_add_stub st dep st1 :
  linked st -> add_stub st dep = Ok st1 ->
  linked st1 /\ dep_system dep ∈ seen_urns st1 /\ seen_urns st ⊆ seen_urns st1.
Proof.
  intros [Hs He]. unfold add_stub. case_decide.
  - intros [= <-]. by split.
  - rewrite list_last_split. simpl. intros [= <-]. split; [split|]; simpl.
    + intros u [Hu|Hu]%elem_of_union.
      * destruct (Hs u Hu) as (n & ? & ?). exists n. set_solver.
      * apply elem_of_singleton in Hu as ->. eexists.
        split; [apply elem_of_app; right; apply list_elem_of_singleton; done|done].
    + eapply Forall_impl; [done|]. intros e. apply edge_resolved_mono.
    + set_solver.
Qed.

Lemma linked_add_depends_edge u st dep :
  linked st -> u ∈ seen_urns st -> dep_system dep ∈ seen_urns st ->
  linked (add_depends_edge u st dep).
Proof.
  intros [Hs He] Hu Ht. split; simpl; [done|].
  apply Forall_app. split; [done|]. constructor; [|done]. split.
  - destruct (Hs u Hu) as (n & ? & ? & ?). by exists (VStr u), n.
  - left. split; [done|].
    destruct (Hs _ Ht) as (n & ? & ? & ?). by exists (VStr (dep_system dep)), n.
Qed.

Lemma linked_add_dependency u st dep st' :
  linked st /\ u ∈ seen_urns st -> add_dependency u st dep = Ok st' ->
  linked st' /\ u ∈ seen_urns st'.
Proof.
  intros [HL Hu]. unfold add_dependency.
  destruct (add_stub st dep) as [st1|e] eqn:E; simpl; [|done].
  intros [= <-]. destruct (linked_add_stub _ _ _ HL E) as (HL1 & Ht & Hsub).
  split; [apply linked_add_depends_edge; set_solver | simpl; set_solver].
Qed.

Lemma linked_add_capability u st cap :
  linked st /\ u ∈ seen_urns st ->
  linked (add_capability u st cap) /\ u ∈ seen_urns (add_capability u st cap).
Proof.
  intros [[Hs He] Hu]. split; [split|]; simpl; [|rewrite Forall_app; split|done].
  - intros u' Hu'. destruct (Hs u' Hu') as (n & ? & ?). exists n. set_solver.
  - eapply Forall_impl; [done|]. intros e. apply edge_resolved_mono.
  - constructor; [|done]. split.
    + destruct (Hs u Hu) as (n & ? & ? & ?). exists (VStr u), n. set_solver.
    + right. split; [done|].
      exists (VStr (cap_id u cap)), (capability_node u cap). set_solver.
Qed.

Lemma linked_add_manifest st m st' :
  linked st -> add_manifest st m = Ok st' -> linked st'.
Proof.
  intros HL. unfold add_manifest.
  destruct (foldlM _ _ _) as [st2|e] eqn:E; simpl; [|done]. intros [= <-].
  eapply (foldlM_invariant (fun s => linked s /\ urn (system m) ∈ seen_urns s)) in E;
    [|apply linked_add_dependency|by apply linked_add_system].
  eapply (foldl_invariant (fun s => linked s /\ urn (system m) ∈ seen_urns s));
    [apply linked_add_capability|done].
Qed.

(** C3: in the output of [export_json] every edge's ["from"] and ["to"] value
    is the ["id"] of a record of [nodes]: ["from"] that of a System node,
    ["to"] that of a System node (declared or stub) for a DEPENDS_ON edge and
    of a Capability node for a PROVIDES edge.  The invariant [linked] holds
    after every block of the loop body, so the endpoints are already present
    when the edge is appended. *)
Theorem export_json_edges_resolve (ms : list SCPManifest) :
  exists g, export_json ms = Ok g /\
    Forall (edge_resolved (g_nodes g)) (g_edges g).
Proof.
  rewrite export_json_eq. eexists. split; [done|]. simpl.
  pose proof (run_manifests_eq ms init_state) as Hrun.
  apply (foldlM_invariant linked) in Hrun;
    [|apply linked_add_manifest|apply linked_init].
  by destruct Hrun as [_ He].
Qed.

(** ** Node identifiers *)

Lemma system_ids_snoc_system ns n :
  has_type "System" n -> system_ids (ns ++ [n]) = system_ids ns ++ [dict_get "id" n].
Proof.
  intros Hn. unfold system_ids, node_ids.
  by rewrite filter_app, (filter_cons_True _ _ _ Hn), map_app.
Qed.

Lemma system_ids_snoc_other ns n :
  ~ has_type "System" n -> system_ids (ns ++ [n]) = system_ids ns.
Proof.
  intros Hn. unfold system_ids, node_ids.
  by rewrite filter_app, (filter_cons_False _ _ _ Hn), filter_nil, app_nil_r.
Qed.

Lemma distinct_init : distinct init_state.
Proof. split; simpl; [constructor | set_solver]. Qed.

Lemma distinct_snoc_fresh ns (seen : gset string) n u es :
  distinct {| nodes := ns; edges := es; seen_urns := seen |} ->
  has_type "System" n -> dict_get "id" n = Some (VStr u) -> u ∉ seen ->
  forall es', distinct {| nodes := ns ++ [n]; edges := es'; seen_urns := seen ∪ {[u]} |}.
Proof.
  intros [Hnd Hs] Hty Hid Hu es'. simpl in *. split; simpl.
  - rewrite system_ids_snoc_system by done. apply NoDup_app. split_and!.
    + done.
    + intros x Hx Hx'. apply list_elem_of_singleton in Hx' as ->.
      destruct (Hs _ Hx) as (u' & Heq & Hu'). rewrite Hid in Heq. by simplify_eq.
    + apply NoDup_singleton.
  - rewrite system_ids_snoc_system by done.
    intros x [Hx|Hx]%elem_of_app.
    + destruct (Hs _ Hx) as (u' & ? & ?). exists u'. set_solver.
    + apply list_elem_of_singleton in Hx as ->. exists u. set_solver.
Qed.

Lemma distinct_add_system m st : distinct st -> distinct (add_system m st).
Proof.
  intros HD. unfold add_system. case_decide; [done|].
  destruct st as [ns es seen]. by eapply distinct_snoc_fresh.
Qed.

Lemma distinct_add_dependency u st dep st' :
  distinct st -> add_dependency u st dep = Ok st' -> distinct st'.
Proof.
  intros HD. rewrite add_dependency_eq. intros [= <-].
  destruct st as [ns es seen]; simpl. unfold stub_nodes. case_decide.
  - destruct HD as [Hnd Hs]. split; simpl in *; rewrite app_nil_r; [done|].
    intros x Hx. destruct (Hs _ Hx) as (u' & ? & ?). exists u'. set_solver.
  - by eapply distinct_snoc_fresh.
Qed.

Lemma distinct_add_capability u st cap :
  distinct st -> distinct (add_capability u st cap).
Proof.
  intros [Hnd Hs]. split; simpl; by rewrite system_ids_snoc_other.
Qed.

Lemma distinct_add_manifest st m st' :
  distinct st -> add_manifest st m = Ok st' -> distinct st'.
Proof.
  intros HD. unfold add_manifest.
  destruct (foldlM _ _ _) as [st2|e] eqn:E; simpl; [|done]. intros [= <-].
  eapply (foldlM_invariant distinct) in E;
    [|apply distinct_add_dependency|by apply distinct_add_system].
  by apply foldl_invariant; [apply distinct_add_capability|].
Qed.

Lemma run_distinct ms : distinct
  {| nodes := ordered_nodes ∅ ms; edges := ordered_edges ms;
     seen_urns := ∅ ∪ all_urns ms |}.
Proof.
  pose proof (run_manifests_eq ms init_state) as Hrun.
  by apply (foldlM_invariant distinct) in Hrun;
    [|apply distinct_add_manifest|apply distinct_init].
Qed.

(** The nodes that are not System-typed are the capability nodes, one per
    provided capability, whatever was seen. *)
Lemma deps_nodes_all_system seen deps :
  Forall (has_type "System") (deps_nodes seen deps).
Proof.
  revert seen. induction deps as [|d ds IH]; intros seen; simpl; [done|].
  apply Forall_app. split; [|done].
  unfold stub_nodes. case_decide; by repeat constructor.
Qed.

Lemma filter_all {A} (P : A -> Prop) `{!forall x, Decision (P x)} (l : list A) :
  Forall P l -> filter P l = l.
Proof.
  induction 1 as [|x l Hx _ IH]; [done|]. by rewrite filter_cons_True, IH.
Qed.

Lemma filter_none {A} (P : A -> Prop) `{!forall x, Decision (P x)} (l : list A) :
  Forall (fun x => ~ P x) l -> filter P l = [].
Proof.
  induction 1 as [|x l Hx _ IH]; [done|]. by rewrite filter_cons_False, IH.
Qed.

Lemma other_ids_ordered_nodes seen ms :
  node_ids (filter (fun n => ~ has_type "System" n) (ordered_nodes seen ms))
  = map (fun i => Some (VStr i)) (cap_ids ms).
Proof.
  revert seen. induction ms as [|m ms IH]; intros seen; simpl; [done|].
  unfold manifest_nodes, node_ids. rewrite !filter_app, !map_app.
  fold (node_ids (filter (fun n => ~ has_type "System" n)
                    (ordered_nodes (seen ∪ manifest_urns m) ms))).
  rewrite IH.
  rewrite (filter_none _ (sys_nodes seen m)), (filter_none _ (deps_nodes _ _)),
    (filter_all _ (map _ _)); simpl.
  - by rewrite <- !list_fmap_compose.
  - apply Forall_map, Forall_true. by intros c.
  - eapply Forall_impl; [apply deps_nodes_all_system|]. naive_solver.
  - unfold sys_nodes. case_decide; repeat constructor. naive_solver.
Qed.

Lemma run_linked ms : linked
  {| nodes := ordered_nodes ∅ ms; edges := ordered_edges ms;
     seen_urns := ∅ ∪ all_urns ms |}.
Proof.
  pose proof (run_manifests_eq ms init_state) as Hrun.
  by apply (foldlM_invariant linked) in Hrun;
    [|apply linked_add_manifest|apply linked_init].
Qed.

Lemma system_ids_elem ns n :
  n ∈ ns -> has_type "System" n -> dict_get "id" n ∈ system_ids ns.
Proof.
  intros Hn Hty. unfold system_ids, node_ids. apply list_elem_of_fmap.
  exists n. split; [done|]. by apply list_elem_of_filter.
Qed.

(** C1 (amended): no two System-typed records of [nodes] share an ["id"].
    Capability records are appended without any check, so the whole of
    [nodes] is duplicate-free exactly as far as the capability identifiers
    [urn:name] are: no two records of [nodes] share an ["id"] if and only if
    these identifiers are pairwise distinct and differ from every system and
    dependency URN. *)
Theorem export_json_system_ids_distinct (ms : list SCPManifest) :
  exists g, export_json ms = Ok g /\
    NoDup (system_ids (g_nodes g)) /\
    (NoDup (node_ids (g_nodes g)) <->
     NoDup (cap_ids ms) /\ forall i, i ∈ cap_ids ms -> i ∉ all_urns ms).
Proof.
  rewrite export_json_eq. eexists. split; [done|]. simpl.
  destruct (run_distinct ms) as [Hnd Hs]. simpl in *. split; [done|].
  pose proof (filter_app_complement (has_type "System") (ordered_nodes ∅ ms)) as HP.
  unfold node_ids at 1. rewrite <- HP, map_app.
  fold (node_ids (filter (has_type "System") (ordered_nodes ∅ ms))).
  fold (system_ids (ordered_nodes ∅ ms)).
  fold (node_ids (filter (fun n => ~ has_type "System" n) (ordered_nodes ∅ ms))).
  rewrite other_ids_ordered_nodes, NoDup_app.
  assert (Inj (=) (=) (fun i : string => Some (VStr i))) as Hinj
    by (by intros ?? [= ->]).
  split.
  - intros (_ & Hsep & Hcaps). split; [by eapply NoDup_fmap|].
    intros i Hi Hu.
    destruct (seen_has_node _ (run_linked ms) i) as (n & Hn & Hid & Hty);
      [simpl; set_solver|]. simpl in Hn.
    apply (Hsep (Some (VStr i))).
    + rewrite <- Hid. by apply system_ids_elem.
    + apply list_elem_of_fmap. by exists i.
  - intros [Hcaps Hsep]. split_and!; [done| |by apply NoDup_fmap].
    intros x Hx Hx'. destruct (Hs _ Hx) as (u & -> & Hu).
    apply list_elem_of_fmap in Hx' as (i & [= <-] & Hi).
    apply (Hsep _ Hi). set_solver.
Qed.

(** ** The node standing for a URN *)

Lemma filter_deps_nodes U seen deps :
  filter (system_for U) (deps_nodes seen deps) =
  if decide (U ∈ seen) then []
  else if decide (U ∈ dep_targets deps) then [stub_node U (last_segment U)]
  else [].
Proof.
  revert seen. induction deps as [|d ds IH]; intros seen; simpl.
  - unfold dep_targets. simpl. repeat case_decide; set_solver.
  - rewrite filter_app, IH. unfold stub_nodes, dep_targets. simpl.
    destruct (decide (dep_system d = U)) as [->|Hne].
    + destruct (decide (U ∈ seen)) as [Hs|Hs].
      * rewrite filter_nil. rewrite decide_True by set_solver. done.
      * rewrite filter_cons_True by done.
        rewrite (decide_True (P := U ∈ seen ∪ {[U]})) by set_solver.
        rewrite decide_True by set_solver. done.
    + assert (filter (system_for U)
                (if decide (dep_system d ∈ seen) then []
                 else [stub_node (dep_system d) (last_segment (dep_system d))]) = [])
        as ->.
      { destruct (decide (dep_system d ∈ seen)); [apply filter_nil|].
        rewrite filter_cons_False; [apply filter_nil|].
        intros [_ Hid]. cbn in Hid. congruence. }
      simpl. repeat case_decide; set_solver.
Qed.

Lemma filter_capability_nodes U u caps :
  filter (system_for U) (map (capability_node u) caps) = [].
Proof.
  apply filter_none, Forall_map, Forall_true. intros c [Hty _]. done.
Qed.

Lemma filter_manifest_nodes U seen m :
  filter (system_for U) (manifest_nodes seen m) =
  if decide (U ∈ seen) then [] else first_node U [m].
Proof.
  unfold manifest_nodes. rewrite !filter_app, filter_deps_nodes,
    filter_capability_nodes, app_nil_r.
  unfold sys_nodes. simpl.
  destruct (decide (urn (system m) = U)) as [<-|Hne].
  - destruct (decide (urn (system m) ∈ seen)) as [Hs|Hs].
    + rewrite decide_True by set_solver. done.
    + rewrite filter_cons_True by done.
      rewrite decide_True by set_solver. done.
  - assert (filter (system_for U)
              (if decide (urn (system m) ∈ seen) then [] else [system_node m]) = [])
      as ->.
    { destruct (decide (urn (system m) ∈ seen)); [apply filter_nil|].
      rewrite filter_cons_False; [apply filter_nil|].
      intros [_ Hid]. cbn in Hid. congruence. }
    simpl. repeat case_decide; set_solver.
Qed.

Lemma filter_ordered_nodes U seen ms :
  filter (system_for U) (ordered_nodes seen ms) =
  if decide (U ∈ seen) then [] else first_node U ms.
Proof.
  revert seen. induction ms as [|m ms IH]; intros seen; simpl.
  - by case_decide.
  - rewrite filter_app, IH, filter_manifest_nodes. simpl.
    unfold manifest_urns.
    destruct (decide (U ∈ seen)) as [Hs|Hs].
    + rewrite decide_True by set_solver. done.
    + destruct (decide (urn (system m) = U)) as [<-|Hne].
      * rewrite decide_True by set_solver. done.
      * destruct (decide (U ∈ dep_targets (items (depends m)))) as [Ht|Ht].
        -- rewrite decide_True by set_solver. done.
        -- rewrite decide_False by set_solver. done.
Qed.

Lemma first_node_app_seen U l1 l2 :
  U ∈ all_urns l1 -> first_node U (l1 ++ l2) = first_node U l1.
Proof.
  induction l1 as [|m l1 IH]; simpl; [set_solver|].
  unfold manifest_urns. intros HU. repeat case_decide; try done.
  apply IH. set_solver.
Qed.

Lemma first_node_app_unseen U l1 l2 :
  U ∉ all_urns l1 -> first_node U (l1 ++ l2) = first_node U l2.
Proof.
  induction l1 as [|m l1 IH]; simpl; [done|].
  unfold manifest_urns. intros HU.
  rewrite decide_False by set_solver. rewrite decide_False by set_solver.
  apply IH. set_solver.
Qed.

Lemma first_node_stub U ms :
  Forall (fun m => urn (system m) <> U) ms -> U ∈ all_urns ms ->
  first_node U ms = [stub_node U (last_segment U)].
Proof.
  induction 1 as [|m ms Hm _ IH]; simpl; [set_solver|].
  unfold manifest_urns. intros HU. rewrite decide_False by done.
  case_decide; [done|]. apply IH. set_solver.
Qed.

(** Each typed record emitted by [export_json] is a System or a Capability. *)
Lemma ordered_nodes_kinds seen ms :
  Forall (fun n => has_type "System" n \/ has_type "Capability" n)
    (ordered_nodes seen ms).
Proof.
  revert seen. induction ms as [|m ms IH]; intros seen; simpl; [done|].
  unfold manifest_nodes. rewrite !Forall_app. split_and!; [| | |done].
  - unfold sys_nodes. destruct (decide (urn (system m) ∈ seen)); [done|].
    constructor; [by left | done].
  - eapply Forall_impl; [apply deps_nodes_all_system|]. naive_solver.
  - apply Forall_map, Forall_true. intros c. by right.
Qed.

(** ** Repeated and late declarations *)

Lemma elem_of_dep_targets U deps :
  U ∈ dep_targets deps <-> exists d, d ∈ deps /\ dep_system d = U.
Proof.
  unfold dep_targets. rewrite elem_of_list_to_set, list_elem_of_fmap. naive_solver.
Qed.

Lemma elem_of_all_urns U ms : U ∈ all_urns ms <-> Exists (mentions U) ms.
Proof.
  induction ms as [|m ms IH]; simpl.
  - rewrite Exists_nil. set_solver.
  - rewrite Exists_cons, <- IH. unfold manifest_urns, mentions.
    rewrite !elem_of_union, elem_of_singleton, elem_of_dep_targets. naive_solver.
Qed.

Lemma deps_nodes_stubs seen deps :
  Forall (fun n => exists d, d ∈ deps /\ (dep_system d ∉ seen) /\
                     n = stub_node (dep_system d) (last_segment (dep_system d)))
    (deps_nodes seen deps).
Proof.
  revert seen. induction deps as [|d ds IH]; intros seen; simpl; [done|].
  apply Forall_app. split.
  - unfold stub_nodes. destruct (decide (dep_system d ∈ seen)); [done|].
    repeat constructor. exists d. set_solver.
  - eapply Forall_impl; [apply IH|]. intros n (d' & ? & ? & ?). exists d'. set_solver.
Qed.

Lemma ordered_edges_manifest m ms e :
  m ∈ ms -> e ∈ manifest_edges m -> e ∈ ordered_edges ms.
Proof.
  induction ms as [|m' ms IH]; simpl; [set_solver|].
  intros [->|Hm]%elem_of_cons He; set_solver.
Qed.

Lemma manifest_assoc {A} (pre : list A) m1 mid m2 post :
  pre ++ m1 :: mid ++ m2 :: post = (pre ++ m1 :: mid) ++ m2 :: post.
Proof. by rewrite <- app_assoc. Qed.

(** C2 (amended): a manifest whose URN was declared by an earlier manifest
    appends no system node; it still appends a stub for each of its
    dependency targets not seen so far and a capability node for each of its
    capabilities, besides its edges.  When that URN was mentioned nowhere
    before its first declaring manifest, the only System-typed node with that
    identifier is the record built from the first manifest. *)
Theorem export_json_repeated_urn (pre : list SCPManifest) (m1 : SCPManifest)
    (mid : list SCPManifest) (m2 : SCPManifest) (post : list SCPManifest) :
  urn (system m2) = urn (system m1) ->
  exists g0 g,
    export_json (pre ++ m1 :: mid) = Ok g0 /\
    export_json (pre ++ m1 :: mid ++ m2 :: post) = Ok g /\
    g_nodes g =
      g_nodes g0
      ++ deps_nodes (all_urns (pre ++ m1 :: mid)) (items (depends m2))
      ++ map (capability_node (urn (system m2))) (items (provides m2))
      ++ ordered_nodes (all_urns (pre ++ m1 :: mid ++ [m2])) post /\
    Forall (fun n => exists d, d ∈ items (depends m2) /\
                       dep_system d <> urn (system m2) /\
                       n = stub_node (dep_system d) (last_segment (dep_system d)))
      (deps_nodes (all_urns (pre ++ m1 :: mid)) (items (depends m2))) /\
    g_edges g = g_edges g0 ++ manifest_edges m2 ++ ordered_edges post /\
    (Forall (fun m => ~ mentions (urn (system m1)) m) pre ->
     filter (system_for (urn (system m1))) (g_nodes g) = [system_node m1]).
Proof.
  intros HU. rewrite !export_json_eq. do 2 eexists.
  assert (urn (system m2) ∈ all_urns (pre ++ m1 :: mid)) as Hseen.
  { rewrite all_urns_app. simpl. unfold manifest_urns. set_solver. }
  assert (all_urns (pre ++ m1 :: mid) ∪ {[urn (system m2)]}
          = all_urns (pre ++ m1 :: mid)) as Habsorb by set_solver.
  split_and!; [done..| | | |]; simpl.
  - rewrite manifest_assoc, ordered_nodes_app. simpl. rewrite !union_empty_seen.
    unfold manifest_nodes, sys_nodes. rewrite decide_True by done. simpl.
    rewrite Habsorb, <- !app_assoc. do 4 f_equal.
    rewrite (manifest_assoc pre m1 mid m2 []), (all_urns_app _ [m2]). simpl.
    set_solver.
  - eapply Forall_impl; [apply deps_nodes_stubs|].
    intros n (d & ? & ? & ?). exists d. set_solver.
  - by rewrite manifest_assoc, ordered_edges_app.
  - intros Hfresh. rewrite filter_ordered_nodes.
    rewrite decide_False by set_solver.
    rewrite first_node_app_unseen.
    + simpl. by rewrite decide_True.
    + rewrite elem_of_all_urns, <- Forall_Exists_neg. done.
Qed.

Lemma filter_agree {A} (P Q : A -> Prop) `{!forall x, Decision (P x)}
    `{!forall x, Decision (Q x)} (l : list A) :
  Forall (fun x => P x <-> Q x) l -> filter P l = filter Q l.
Proof.
  induction 1 as [|x l Hx _ IH]; [done|].
  rewrite !filter_cons, IH. repeat case_decide; naive_solver.
Qed.

(** A Capability node's identifier is one of the capability identifiers. *)
Lemma capability_node_id seen ms n U :
  n ∈ ordered_nodes seen ms -> has_type "Capability" n ->
  dict_get "id" n = Some (VStr U) -> U ∈ cap_ids ms.
Proof.
  intros Hn Hty Hid.
  assert (dict_get "id" n
            ∈ node_ids (filter (fun n => ~ has_type "System" n)
                          (ordered_nodes seen ms))) as Hin.
  { unfold node_ids. apply list_elem_of_fmap. exists n. split; [done|].
    apply list_elem_of_filter. split; [|done].
    unfold has_type in *. congruence. }
  rewrite other_ids_ordered_nodes, Hid in Hin.
  apply list_elem_of_fmap in Hin as (i & [= ->] & Hi). done.
Qed.

(** C6: when a URN is the target of a dependency of an earlier manifest and
    no earlier manifest declares it, the only System-typed node with that
    identifier is the stub, whatever the declaring manifest says; any other
    record with that ["id"] is a Capability node whose derived identifier
    coincides, and there is none when the URN is no capability identifier.
    The dependencies and capabilities of the declaring manifest still yield
    their edges and capability nodes. *)
Theorem export_json_stub_then_declared (pre : list SCPManifest) (m : SCPManifest)
    (post : list SCPManifest) :
  Forall (fun m' => urn (system m') <> urn (system m)) pre ->
  Exists (depends_on (urn (system m))) pre ->
  exists g, export_json (pre ++ m :: post) = Ok g /\
    filter (system_for (urn (system m))) (g_nodes g)
      = [stub_node (urn (system m)) (last_segment (urn (system m)))] /\
    (forall n, n ∈ g_nodes g -> dict_get "id" n = Some (VStr (urn (system m))) ->
       n = stub_node (urn (system m)) (last_segment (urn (system m)))
       \/ has_type "Capability" n) /\
    (urn (system m) ∉ cap_ids (pre ++ m :: post) ->
     filter (fun n => dict_get "id" n = Some (VStr (urn (system m)))) (g_nodes g)
       = [stub_node (urn (system m)) (last_segment (urn (system m)))]) /\
    (forall d, d ∈ items (depends m) -> depends_edge (urn (system m)) d ∈ g_edges g) /\
    (forall c, c ∈ items (provides m) ->
       capability_node (urn (system m)) c ∈ g_nodes g /\
       provides_edge (urn (system m)) c ∈ g_edges g).
Proof.
  intros Hpre Hdep. rewrite export_json_eq. eexists. split; [done|]. simpl.
  assert (urn (system m) ∈ all_urns pre) as Hseen.
  { rewrite elem_of_all_urns. eapply Exists_impl; [done|]. intros m' H. by right. }
  assert (filter (system_for (urn (system m))) (ordered_nodes ∅ (pre ++ m :: post))
          = [stub_node (urn (system m)) (last_segment (urn (system m)))]) as Hfilter.
  { rewrite filter_ordered_nodes. rewrite decide_False by set_solver.
    rewrite first_node_app_seen by done. by apply first_node_stub. }
  split_and!.
  - done.
  - intros n Hn Hid.
    pose proof (ordered_nodes_kinds ∅ (pre ++ m :: post)) as HK.
    rewrite Forall_forall in HK. destruct (HK n Hn) as [Hsys|Hcap]; [left|by right].
    assert (n ∈ filter (system_for (urn (system m)))
                  (ordered_nodes ∅ (pre ++ m :: post))) as Hin.
    { apply list_elem_of_filter. by repeat split. }
    rewrite Hfilter in Hin. by apply list_elem_of_singleton in Hin.
  - intros Hcap. rewrite <- Hfilter. apply filter_agree.
    pose proof (ordered_nodes_kinds ∅ (pre ++ m :: post)) as HK.
    rewrite Forall_forall in HK. apply Forall_forall. intros n Hn.
    unfold system_for. split; [|naive_solver].
    intros Hid. split; [|done]. destruct (HK n Hn) as [Hsys|Hty]; [done|].
    destruct Hcap. by eapply capability_node_id.
  - intros d Hd. apply (ordered_edges_manifest m); [set_solver|].
    unfold manifest_edges. apply elem_of_app. left. by apply list_elem_of_fmap_2.
  - intros c Hc. split.
    + rewrite ordered_nodes_app. simpl. unfold manifest_nodes.
      rewrite !elem_of_app. right. left. right. right. by apply list_elem_of_fmap_2.
    + apply (ordered_edges_manifest m); [set_solver|].
      unfold manifest_edges. apply elem_of_app. right. by apply list_elem_of_fmap_2.
Qed.

(** ** Stub synthesis *)

Lemma deps_nodes_app seen l1 l2 :
  deps_nodes seen (l1 ++ l2)
  = deps_nodes seen l1 ++ deps_nodes (seen ∪ dep_targets l1) l2.
Proof.
  revert seen. induction l1 as [|d l1 IH]; intros seen; simpl.
  - f_equal. unfold dep_targets. simpl. set_solver.
  - rewrite IH, <- app_assoc. do 3 f_equal. unfold dep_targets. simpl. set_solver.
Qed.

Lemma first_node_unmentioned U ms : U ∉ all_urns ms -> first_node U ms = [].
Proof.
  intros H. rewrite <- (app_nil_r ms). by rewrite first_node_app_unseen.
Qed.

(** C4: for every manifest sequence and every dependency whose target is in
    [seen_urns] neither after the earlier manifests, nor as the URN of its own
    manifest, nor as the target of an earlier dependency of that manifest:
    when the loop of [export_json] reaches the dependency, no System node
    with the target's id has been appended; the stub block appends exactly
    the record [{id: target, type: System, name: last colon segment, stub:
    True}] (no tier, domain or team entry), marks the target seen and leaves
    [edges] alone; only then the edge block appends the DEPENDS_ON edge from
    the consumer to the target.  In the returned graph the nodes appended so
    far are followed by the stub, the edges appended so far by that edge,
    the stub is the only System node with the target's id, and the
    dependencies of the manifest have one DEPENDS_ON edge each, in order. *)
Theorem export_json_unseen_target_stub
    (pre : list SCPManifest) (m : SCPManifest) (post : list SCPManifest)
    (dpre : list Dependency) (dep : Dependency) (dpost : list Dependency) :
  items (depends m) = dpre ++ dep :: dpost ->
  dep_system dep ∉ (all_urns pre ∪ {[urn (system m)]} ∪ dep_targets dpre) ->
  exists nm s_pre st0 st1 g,
    last (str_split ":" (dep_system dep)) = Some nm /\
    has_char ":" nm = false /\
    (dep_system dep = nm \/ exists p, dep_system dep = p +:+ ":" +:+ nm) /\
    foldlM add_manifest init_state pre = Ok s_pre /\
    foldlM (add_dependency (urn (system m))) (add_system m s_pre) dpre = Ok st0 /\
    (dep_system dep ∉ seen_urns st0) /\
    filter (system_for (dep_system dep)) (nodes st0) = [] /\
    add_stub st0 dep = Ok st1 /\
    nodes st1 =
      nodes st0 ++ [[("id", VStr (dep_system dep)); ("type", VStr "System");
                     ("name", VStr nm); ("stub", VBool true)]] /\
    edges st1 = edges st0 /\
    seen_urns st1 = seen_urns st0 ∪ {[dep_system dep]} /\
    add_dependency (urn (system m)) st0 dep
      = Ok (add_depends_edge (urn (system m)) st1 dep) /\
    nodes (add_depends_edge (urn (system m)) st1 dep) = nodes st1 /\
    edges (add_depends_edge (urn (system m)) st1 dep)
      = edges st0 ++ [depends_edge (urn (system m)) dep] /\
    export_json (pre ++ m :: post) = Ok g /\
    g_nodes g =
      nodes st0
      ++ [("id", VStr (dep_system dep)); ("type", VStr "System");
          ("name", VStr nm); ("stub", VBool true)]
         :: deps_nodes (seen_urns st1) dpost
      ++ map (capability_node (urn (system m))) (items (provides m))
      ++ ordered_nodes (all_urns (pre ++ [m])) post /\
    filter (system_for (dep_system dep)) (g_nodes g)
      = [[("id", VStr (dep_system dep)); ("type", VStr "System");
          ("name", VStr nm); ("stub", VBool true)]] /\
    edges st0
      = ordered_edges pre ++ map (depends_edge (urn (system m))) dpre /\
    g_edges g =
      edges st0
      ++ depends_edge (urn (system m)) dep
         :: map (depends_edge (urn (system m))) dpost
      ++ map (provides_edge (urn (system m))) (items (provides m))
      ++ ordered_edges post /\
    dict_get "from" (depends_edge (urn (system m)) dep)
      = Some (VStr (urn (system m))) /\
    dict_get "to" (depends_edge (urn (system m)) dep)
      = Some (VStr (dep_system dep)) /\
    has_type "DEPENDS_ON" (depends_edge (urn (system m)) dep).
Proof.
  intros Hdeps Hnew.
  assert (((dep_system dep) ∉ all_urns pre) /\ (dep_system dep) <> (urn (system m)) /\ ((dep_system dep) ∉ dep_targets dpre))
    as (Hpre & Hu & Hd) by set_solver.
  assert (last (str_split ":" (dep_system dep)) = Some (last_segment (dep_system dep))) as Hlast.
  { unfold last_segment. destruct (last (str_split ":" (dep_system dep))) eqn:E; [done|].
    apply last_None in E. by apply str_split_nonempty in E. }
  pose (s_pre := {| nodes := ordered_nodes ∅ pre; edges := ordered_edges pre;
                    seen_urns := all_urns pre |}).
  assert (foldlM add_manifest init_state pre = Ok s_pre) as Hs.
  { rewrite run_manifests_eq. cbn. by rewrite union_empty_seen. }
  pose (st0 := {| nodes := (ordered_nodes ∅ pre ++ sys_nodes (all_urns pre) m)
                           ++ deps_nodes (all_urns pre ∪ {[(urn (system m))]}) dpre;
                  edges := ordered_edges pre ++ map (depends_edge (urn (system m))) dpre;
                  seen_urns := all_urns pre ∪ {[(urn (system m))]} ∪ dep_targets dpre |}).
  assert (foldlM (add_dependency (urn (system m))) (add_system m s_pre) dpre = Ok st0) as H0.
  { by rewrite add_system_eq, run_dependencies_eq. }
  pose (st1 := {| nodes := nodes st0 ++ [stub_node (dep_system dep) (last_segment (dep_system dep))];
                  edges := edges st0;
                  seen_urns := seen_urns st0 ∪ {[(dep_system dep)]} |}).
  assert (add_stub st0 dep = Ok st1) as H1.
  { rewrite add_stub_eq. unfold stub_nodes.
    by rewrite decide_False by (cbn; set_solver). }
  exists (last_segment (dep_system dep)), s_pre, st0, st1. eexists. split_and!.
  - exact Hlast.
  - apply last_segment_no_colon.
  - apply last_segment_suffix.
  - exact Hs.
  - exact H0.
  - cbn. set_solver.
  - cbn [nodes st0]. rewrite !filter_app, filter_ordered_nodes, filter_deps_nodes.
    rewrite decide_False by set_solver.
    rewrite first_node_unmentioned by done.
    rewrite decide_False by set_solver. rewrite decide_False by done.
    unfold sys_nodes. destruct (decide (urn (system m) ∈ all_urns pre)); [done|].
    rewrite filter_cons_False; [done|].
    intros [_ Hid]. simpl in Hid. apply Hu. by injection Hid.
  - exact H1.
  - done.
  - done.
  - done.
  - unfold add_dependency. by rewrite H1.
  - done.
  - done.
  - apply export_json_eq.
  - cbn [g_nodes nodes st0 st1 seen_urns]. rewrite ordered_nodes_app.
    cbn [ordered_nodes]. rewrite !union_empty_seen.
    unfold manifest_nodes. rewrite Hdeps, deps_nodes_app.
    cbn [deps_nodes]. unfold stub_nodes at 1.
    rewrite decide_False by set_solver.
    rewrite all_urns_app. cbn [all_urns].
    rewrite <- !app_assoc. cbn [app]. do 6 f_equal.
    unfold manifest_urns. rewrite Hdeps. unfold dep_targets.
    by rewrite (right_id_L ∅ (∪)).
  - cbn [g_nodes]. rewrite filter_ordered_nodes, decide_False by set_solver.
    rewrite first_node_app_unseen by done. cbn [first_node].
    rewrite decide_False by done. rewrite decide_True; [done|].
    rewrite Hdeps. unfold dep_targets. rewrite map_app. cbn [map]. set_solver.
  - done.
  - cbn [g_edges edges st0]. rewrite ordered_edges_app. cbn [ordered_edges].
    unfold manifest_edges. rewrite Hdeps, map_app. cbn [map].
    by rewrite <- !app_assoc.
  - done.
  - done.
  - done.
Qed.

(** ** Concrete runs *)

(** The fixture of [tests/test_export.py]: two System nodes, two Capability
    nodes and one DEPENDS_ON edge, as [test_export_meta] asserts. *)
Example export_json_fixture_meta :
  exists g, export_json [order_service; user_service] = Ok g /\
    g_meta g = {| systems_count := 2; capabilities_count := 2;
                  dependencies_count := 1 |} /\
    length (filter (has_type "PROVIDES") (g_edges g)) = 2%nat.
Proof. eexists. split; [vm_compute; reflexivity|]. split; reflexivity. Qed.

(** C1, as stated, fails: the same manifest listed twice has its capability
    node appended twice, so two records of [nodes] share an ["id"]. *)
Lemma export_json_duplicate_node_ids :
  exists g, export_json [user_service; user_service] = Ok g /\
    g_nodes g =
      [ system_node user_service;
        capability_node "urn:scp:test:user-service"
          {| cap_capability := "user-lookup"; cap_type := Some "rest" |};
        capability_node "urn:scp:test:user-service"
          {| cap_capability := "user-lookup"; cap_type := Some "rest" |} ] /\
    ~ NoDup (node_ids (g_nodes g)).
Proof.
  eexists. split; [vm_compute; reflexivity|]. split; [reflexivity|].
  cbn. intros H. apply NoDup_cons in H as [_ H].
  apply NoDup_cons in H as [H _]. apply H. left.
Qed.

Lemma export_json_system_ids_distinct_witness :
  NoDup (cap_ids [order_service; user_service]) /\
  (forall i, i ∈ cap_ids [order_service; user_service] ->
             i ∉ all_urns [order_service; user_service]) /\
  exists g, export_json [order_service; user_service] = Ok g /\
    NoDup (system_ids (g_nodes g)) /\ NoDup (node_ids (g_nodes g)).
Proof.
  assert (NoDup (cap_ids [order_service; user_service])) as H1
    by (apply (bool_decide_unpack _); vm_compute; exact I).
  assert (forall i, i ∈ cap_ids [order_service; user_service] ->
                    i ∉ all_urns [order_service; user_service]) as H2.
  { apply Forall_forall. apply (bool_decide_unpack _). vm_compute. exact I. }
  split; [exact H1|]. split; [exact H2|].
  destruct (export_json_system_ids_distinct [order_service; user_service])
    as (g & Hg & Hsys & Hall).
  exists g. split; [exact Hg|]. split; [exact Hsys|].
  exact (proj2 Hall (conj H1 H2)).
Defined.

(** C2, as stated, fails: a later manifest for an already declared URN
    appends nodes, here the stub of its dependency and its capability node. *)
Lemma export_json_later_manifest_adds_nodes :
  urn (system user_service_again) = urn (system user_service) /\
  exists g1 g2,
    export_json [user_service] = Ok g1 /\
    export_json [user_service; user_service_again] = Ok g2 /\
    g_nodes g2 =
      g_nodes g1
      ++ [ stub_node "urn:scp:test:audit-log" "audit-log";
           capability_node "urn:scp:test:user-service"
             {| cap_capability := "user-admin"; cap_type := Some "grpc" |} ] /\
    g_nodes g2 <> g_nodes g1.
Proof.
  split; [reflexivity|]. do 2 eexists.
  split; [vm_compute; reflexivity|]. split; [vm_compute; reflexivity|].
  split; [reflexivity|]. cbn. discriminate.
Qed.

Lemma export_json_repeated_urn_witness :
  urn (system user_service_again) = urn (system user_service) /\
  Forall (fun m => ~ mentions (urn (system user_service)) m) [] /\
  exists g,
    export_json ([] ++ user_service :: [order_service]
                    ++ user_service_again :: []) = Ok g /\
    filter (system_for (urn (system user_service))) (g_nodes g)
      = [system_node user_service].
Proof.
  split; [reflexivity|]. split; [constructor|].
  destruct (export_json_repeated_urn [] user_service [order_service]
              user_service_again [] eq_refl)
    as (g0 & g & _ & Hg & _ & _ & _ & Hfirst).
  exists g. split; [exact Hg|]. apply Hfirst. constructor.
Defined.

Lemma export_json_unseen_target_stub_witness :
  items (depends order_service)
    = [] ++ {| dep_system := "urn:scp:test:user-service";
               dep_capability := Some "user-lookup";
               dep_criticality := Some "required";
               dep_failure_mode := Some "fail-fast" |} :: [] /\
  ("urn:scp:test:user-service"
     ∉ all_urns [] ∪ {[urn (system order_service)]} ∪ dep_targets []) /\
  exists g,
    export_json ([] ++ order_service :: [user_service]) = Ok g /\
    filter (system_for "urn:scp:test:user-service") (g_nodes g)
      = [[("id", VStr "urn:scp:test:user-service"); ("type", VStr "System");
          ("name", VStr "user-service"); ("stub", VBool true)]].
Proof.
  assert ("urn:scp:test:user-service"
            ∉ all_urns [] ∪ {[urn (system order_service)]} ∪ dep_targets [])
    as Hnew by (apply (bool_decide_unpack _); vm_compute; exact I).
  split; [reflexivity|]. split; [exact Hnew|].
  destruct (export_json_unseen_target_stub [] order_service [user_service] []
              {| dep_system := "urn:scp:test:user-service";
                 dep_capability := Some "user-lookup";
                 dep_criticality := Some "required";
                 dep_failure_mode := Some "fail-fast" |} [] eq_refl Hnew)
    as (nm & s_pre & st0 & st1 & g & Hlast & _ & _ & _ & _ & _ & _ & _ & _ & _
        & _ & _ & _ & _ & Hg & _ & Hone & _).
  exists g. split; [exact Hg|].
  vm_compute in Hlast. injection Hlast as <-. exact Hone.
Defined.

Lemma export_json_stub_then_declared_witness :
  Forall (fun m' => urn (system m') <> urn (system user_service)) [order_service] /\
  Exists (depends_on (urn (system user_service))) [order_service] /\
  ("urn:scp:test:user-service" ∉ cap_ids ([order_service] ++ user_service :: [])) /\
  exists g, export_json ([order_service] ++ user_service :: []) = Ok g /\
    filter (system_for "urn:scp:test:user-service") (g_nodes g)
      = [stub_node "urn:scp:test:user-service" "user-service"] /\
    filter (fun n => dict_get "id" n = Some (VStr "urn:scp:test:user-service"))
      (g_nodes g)
      = [stub_node "urn:scp:test:user-service" "user-service"].
Proof.
  assert ("urn:scp:test:user-service"
            ∉ cap_ids ([order_service] ++ user_service :: [])) as H3
    by (apply (bool_decide_unpack _); vm_compute; exact I).
  assert (Forall (fun m' => urn (system m') <> urn (system user_service))
            [order_service]) as H1 by (repeat constructor; discriminate).
  assert (Exists (depends_on (urn (system user_service))) [order_service]) as H2.
  { left. eexists. split; [left|reflexivity]. }
  split; [exact H1|]. split; [exact H2|]. split; [exact H3|].
  destruct (export_json_stub_then_declared [order_service] user_service [] H1 H2)
    as (g & Hg & Hfilter & _ & Hall & _).
  exists g. split; [exact Hg|]. split; [exact Hfilter|]. exact (Hall H3).
Defined.

(** ** Insertion-ordered dicts *)

Lemma dict_get_set_eq {V} k (v : V) d : dict_get k (dict_set k v d) = Some v.
Proof.
  induction d as [|[k' v'] d IH]; simpl.
  - by rewrite String.eqb_refl.
  - destruct (String.eqb_spec k k') as [->|Hne]; simpl.
    + by rewrite String.eqb_refl.
    + by destruct (String.eqb_spec k k').
Qed.

Lemma dict_get_set_ne {V} k k' (v : V) d :
  k <> k' -> dict_get k' (dict_set k v d) = dict_get k' d.
Proof.
  intros Hne. induction d as [|[k0 v0] d IH]; simpl.
  - by destruct (String.eqb_spec k' k) as [->|].
  - destruct (String.eqb_spec k k0) as [->|Hne0]; simpl.
    + by destruct (String.eqb_spec k' k0) as [->|].
    + by rewrite IH.
Qed.

Lemma dict_get_None {V} k (d : odict V) : dict_get k d = None <-> k ∉ keys d.
Proof.
  unfold keys. induction d as [|[k' v'] d IH]; simpl; [set_solver|].
  destruct (String.eqb_spec k k') as [->|Hne]; [set_solver|].
  rewrite IH. set_solver.
Qed.

Lemma dict_mem_true {V} k (d : odict V) : dict_mem k d = true <-> k ∈ keys d.
Proof.
  unfold dict_mem. pose proof (dict_get_None k d) as H.
  destruct (dict_get k d); split; try done.
  - intros _. destruct (decide (k ∈ keys d)); [done|]. by apply H in n.
  - intros Hk. by apply H in Hk.
Qed.

(** A key is present once a lookup of it is known to succeed. *)
Ltac key_present lem :=
  apply dict_mem_true; unfold dict_mem; by rewrite lem.

Lemma keys_dict_set {V} k (v : V) d :
  keys (dict_set k v d) = if dict_mem k d then keys d else keys d ++ [k].
Proof.
  unfold keys, dict_mem. induction d as [|[k' v'] d IH]; simpl; [done|].
  destruct (String.eqb_spec k k') as [->|Hne]; simpl; [done|].
  rewrite IH. by destruct (dict_get k d).
Qed.

Lemma keys_dict_set_prefix {V} k (v : V) d : keys d `prefix_of` keys (dict_set k v d).
Proof.
  rewrite keys_dict_set. destruct (dict_mem k d); [done|]. by apply prefix_app_r.
Qed.

Lemma keys_dict_set_nodup {V} k (v : V) d :
  NoDup (keys d) -> NoDup (keys (dict_set k v d)).
Proof.
  intros Hnd. rewrite keys_dict_set. destruct (dict_mem k d) eqn:E; [done|].
  apply NoDup_app. split_and!; [done| |apply NoDup_singleton].
  intros x Hx ->%list_elem_of_singleton.
  apply dict_mem_true in Hx. congruence.
Qed.

(** With distinct keys, the entry at a key's position is the one [d[k]]
    returns. *)
Lemma dict_get_lookup {V} (d : odict V) i k v :
  NoDup (keys d) -> d !! i = Some (k, v) -> dict_get k d = Some v.
Proof.
  unfold keys. revert i. induction d as [|[k' v'] d IH]; intros i Hnd Hi; [done|].
  simpl in *. apply NoDup_cons in Hnd as [Hk' Hnd].
  destruct i as [|i]; simpl in Hi.
  - injection Hi as -> ->. by rewrite String.eqb_refl.
  - destruct (String.eqb_spec k k') as [->|Hne]; [|by eapply IH].
    exfalso. apply Hk'. apply list_elem_of_fmap. exists (k', v).
    split; [done|]. by eapply list_elem_of_lookup_2.
Qed.

Lemma keys_lookup {V} (d : odict V) i k :
  keys d !! i = Some k -> exists v, d !! i = Some (k, v).
Proof.
  unfold keys, odict in *. rewrite list_lookup_fmap.
  destruct (d !! i) as [[k' v]|]; simpl; [|done]. intros [= ->]. by exists v.
Qed.

(** ** [export_mermaid]: the registry and the recorded dependencies *)

Section MermaidProperties.

Variable title : string -> string.

Lemma record_dependency_eq u st dep :
  record_dependency title u st dep =
  Ok {| systems := record_stub title (systems st) dep;
        dependencies := dependencies st ++ [dep_triple u dep] |}.
Proof.
  unfold record_dependency, record_stub.
  destruct (dict_mem (dep_system dep) (systems st)); [done|].
  by rewrite list_last_split.
Qed.

Lemma record_dependencies_eq u deps st :
  foldlM (record_dependency title u) st deps =
  Ok {| systems := foldl (record_stub title) (systems st) deps;
        dependencies := dependencies st ++ map (dep_triple u) deps |}.
Proof.
  revert st. induction deps as [|d ds IH]; intros st; simpl.
  - rewrite app_nil_r. by destruct st.
  - rewrite record_dependency_eq. simpl. rewrite IH. simpl.
    by rewrite <- app_assoc.
Qed.

Lemma register_manifest_eq st m :
  register_manifest title st m =
  Ok {| systems := register_systems title (systems st) m;
        dependencies :=
          dependencies st ++ map (dep_triple (urn (system m))) (items (depends m)) |}.
Proof. unfold register_manifest. by rewrite record_dependencies_eq. Qed.

Lemma run_register_eq ms st :
  foldlM (register_manifest title) st ms =
  Ok {| systems := foldl (register_systems title) (systems st) ms;
        dependencies := dependencies st ++ all_triples ms |}.
Proof.
  revert st. induction ms as [|m ms IH]; intros st; simpl.
  - rewrite app_nil_r. by destruct st.
  - rewrite register_manifest_eq. simpl. rewrite IH. simpl.
    by rewrite <- app_assoc.
Qed.

(** Keys are only ever appended, and stay distinct. *)
Lemma record_stub_prefix sys dep : keys sys `prefix_of` keys (record_stub title sys dep).
Proof.
  unfold record_stub. destruct (dict_mem _ sys); [done|].
  apply keys_dict_set_prefix.
Qed.

Lemma record_stubs_prefix deps sys :
  keys sys `prefix_of` keys (foldl (record_stub title) sys deps).
Proof.
  revert sys. induction deps as [|d ds IH]; intros sys; simpl; [done|].
  etrans; [apply record_stub_prefix | apply IH].
Qed.

Lemma register_systems_prefix sys m :
  keys sys `prefix_of` keys (register_systems title sys m).
Proof.
  unfold register_systems.
  etrans; [apply keys_dict_set_prefix | apply record_stubs_prefix].
Qed.

Lemma registry_prefix ms sys :
  keys sys `prefix_of` keys (foldl (register_systems title) sys ms).
Proof.
  revert sys. induction ms as [|m ms IH]; intros sys; simpl; [done|].
  etrans; [apply register_systems_prefix | apply IH].
Qed.

Lemma prefix_elem_of {A} (l1 l2 : list A) x : l1 `prefix_of` l2 -> x ∈ l1 -> x ∈ l2.
Proof. intros [k ->] Hx. set_solver. Qed.

Lemma record_stub_nodup sys dep :
  NoDup (keys sys) -> NoDup (keys (record_stub title sys dep)).
Proof.
  unfold record_stub. destruct (dict_mem _ sys); [done|].
  apply keys_dict_set_nodup.
Qed.

Lemma register_systems_nodup sys m :
  NoDup (keys sys) -> NoDup (keys (register_systems title sys m)).
Proof.
  intros Hnd. unfold register_systems.
  apply foldl_invariant; [intros; by apply record_stub_nodup|].
  by apply keys_dict_set_nodup.
Qed.

Lemma registry_nodup ms sys :
  NoDup (keys sys) -> NoDup (keys (foldl (register_systems title) sys ms)).
Proof.
  intros Hnd. apply foldl_invariant; [intros; by apply register_systems_nodup|done].
Qed.

(** A stub never replaces a registered entry; a manifest replaces only the
    entry of its own URN. *)
Lemma record_stub_get sys dep k :
  k ∈ keys sys -> dict_get k (record_stub title sys dep) = dict_get k sys.
Proof.
  intros Hk. unfold record_stub.
  destruct (dict_mem (dep_system dep) sys) eqn:E; [done|].
  apply dict_get_set_ne. intros Heq. subst k.
  apply dict_mem_true in Hk. congruence.
Qed.

Lemma record_stubs_get deps sys k :
  k ∈ keys sys -> dict_get k (foldl (record_stub title) sys deps) = dict_get k sys.
Proof.
  revert sys. induction deps as [|d ds IH]; intros sys Hk; simpl; [done|].
  rewrite IH; [by apply record_stub_get|].
  eapply prefix_elem_of; [apply record_stub_prefix|done].
Qed.

Lemma register_systems_get_self sys m :
  dict_get (urn (system m)) (register_systems title sys m) = Some (manifest_info m).
Proof.
  unfold register_systems. rewrite record_stubs_get; [apply dict_get_set_eq|].
  key_present @dict_get_set_eq.
Qed.

Lemma register_systems_get_other sys m k :
  urn (system m) <> k -> k ∈ keys sys ->
  dict_get k (register_systems title sys m) = dict_get k sys.
Proof.
  intros Hne Hk. unfold register_systems. rewrite record_stubs_get.
  - by apply dict_get_set_ne.
  - eapply prefix_elem_of; [apply keys_dict_set_prefix|done].
Qed.

Lemma registry_get_other ms sys k :
  Forall (fun m => urn (system m) <> k) ms -> k ∈ keys sys ->
  dict_get k (foldl (register_systems title) sys ms) = dict_get k sys.
Proof.
  intros Hms. revert sys. induction Hms as [|m ms Hm _ IH]; intros sys Hk; simpl.
  - done.
  - rewrite IH; [by apply register_systems_get_other|].
    eapply prefix_elem_of; [apply register_systems_prefix|done].
Qed.

Lemma registry_app l1 l2 sys :
  foldl (register_systems title) sys (l1 ++ l2)
  = foldl (register_systems title) (foldl (register_systems title) sys l1) l2.
Proof. apply foldl_app. Qed.

Lemma covered_mono sys sys' d :
  keys sys `prefix_of` keys sys' -> covered sys d -> covered sys' d.
Proof. intros Hp [? ?]. split; by eapply prefix_elem_of. Qed.

Lemma record_stub_target sys dep : dep_system dep ∈ keys (record_stub title sys dep).
Proof.
  unfold record_stub. destruct (dict_mem (dep_system dep) sys) eqn:E.
  - by apply dict_mem_true.
  - key_present @dict_get_set_eq.
Qed.

Lemma record_stubs_targets deps sys d :
  d ∈ deps -> dep_system d ∈ keys (foldl (record_stub title) sys deps).
Proof.
  revert sys. induction deps as [|d' ds IH]; intros sys; simpl; [set_solver|].
  intros [->|Hd]%elem_of_cons; [|by apply IH].
  eapply prefix_elem_of; [apply record_stubs_prefix | apply record_stub_target].
Qed.

Lemma register_systems_covers sys m :
  Forall (covered (register_systems title sys m))
    (map (dep_triple (urn (system m))) (items (depends m))).
Proof.
  apply Forall_map, Forall_forall. intros d Hd. split; simpl.
  - key_present register_systems_get_self.
  - by apply record_stubs_targets.
Qed.

Lemma registry_covers ms sys :
  Forall (covered (foldl (register_systems title) sys ms)) (all_triples ms).
Proof.
  revert sys. induction ms as [|m ms IH]; intros sys; simpl; [done|].
  apply Forall_app. split; [|apply IH].
  eapply Forall_impl; [apply register_systems_covers|].
  intros d. apply covered_mono, registry_prefix.
Qed.

(** With both ends registered, the two [systems[...]] lookups of the edge
    loop succeed. *)
Lemma edge_lines_ok sys ds :
  Forall (covered sys) ds -> exists els, edge_lines sys ds = Ok els.
Proof.
  induction 1 as [|[[f t] c] ds [Hf Ht] _ [els IH]]; simpl; [by eexists|].
  simpl in Hf, Ht. apply dict_mem_true in Hf, Ht. unfold dict_mem in Hf, Ht.
  unfold dict_item.
  destruct (dict_get f sys); [|done]. destruct (dict_get t sys); [|done].
  simpl. rewrite IH. simpl. by eexists.
Qed.

Lemma mermaid_lines_eq ms direction :
  exists els,
    edge_lines (foldl (register_systems title) [] ms) (all_triples ms) = Ok els /\
    mermaid_lines title ms direction =
    Ok (["flowchart " +:+ direction]
        ++ [EmptyString; "    %% Systems"]
        ++ map node_line (values (foldl (register_systems title) [] ms))
        ++ [EmptyString; "    %% Dependencies"]
        ++ els
        ++ [EmptyString; "    %% Styling"]
        ++ style_lines (foldl (register_systems title) [] ms)).
Proof.
  destruct (edge_lines_ok _ _ (registry_covers ms [])) as [els Hels].
  exists els. split; [done|].
  unfold mermaid_lines. rewrite run_register_eq. simpl. by rewrite Hels.
Qed.

Lemma node_line_at ms direction lns i u inf :
  mermaid_lines title ms direction = Ok lns ->
  foldl (register_systems title) [] ms !! i = Some (u, inf) ->
  lns !! (3 + i) = Some (node_line inf).
Proof.
  destruct (mermaid_lines_eq ms direction) as (els & _ & ->). intros [= <-] Hi.
  simpl. rewrite lookup_app_l.
  - unfold values. rewrite !list_lookup_fmap.
    unfold odict in *. by rewrite Hi.
  - unfold values. rewrite !length_map. by eapply lookup_lt_Some.
Qed.

(** C7: the last manifest declaring a URN decides the name and tier shown for
    it, whatever entry (an earlier declaration or a stub) was registered
    before; the keys registered before that manifest keep their positions, and
    the node line at the URN's position is rendered from the declaring
    manifest. *)
Theorem export_mermaid_last_declaration_wins (pre : list SCPManifest)
    (m : SCPManifest) (post : list SCPManifest) (direction : string) :
  Forall (fun m' => urn (system m') <> urn (system m)) post ->
  exists st0 st lns,
    foldlM (register_manifest title) init_mermaid pre = Ok st0 /\
    foldlM (register_manifest title) init_mermaid (pre ++ m :: post) = Ok st /\
    mermaid_lines title (pre ++ m :: post) direction = Ok lns /\
    dict_get (urn (system m)) (systems st) =
      Some {| info_id := _urn_to_id (urn (system m));
              info_name := name (system m);
              info_tier := system_tier (system m) |} /\
    keys (systems st0) `prefix_of` keys (systems st) /\
    NoDup (keys (systems st)) /\
    (forall i, keys (systems st) !! i = Some (urn (system m)) ->
       lns !! (3 + i) =
         Some (node_line {| info_id := _urn_to_id (urn (system m));
                            info_name := name (system m);
                            info_tier := system_tier (system m) |})).
Proof.
  intros Hpost. rewrite !run_register_eq.
  destruct (mermaid_lines_eq (pre ++ m :: post) direction) as (els & _ & Hlns).
  assert (dict_get (urn (system m)) (foldl (register_systems title) [] (pre ++ m :: post))
          = Some (manifest_info m)) as Hget.
  { rewrite registry_app. simpl. rewrite registry_get_other; [|done|].
    - apply register_systems_get_self.
    - key_present register_systems_get_self. }
  do 3 eexists. split_and!; [done | done | exact Hlns | | | |]; cbn [systems].
  - exact Hget.
  - rewrite registry_app. apply registry_prefix.
  - apply registry_nodup. constructor.
  - intros i Hi. apply keys_lookup in Hi as [inf Hi].
    assert (dict_get (urn (system m)) (foldl (register_systems title) [] (pre ++ m :: post))
            = Some inf) as Hget'.
    { eapply dict_get_lookup; [|done]. apply registry_nodup. constructor. }
    rewrite Hget in Hget'. injection Hget' as <-.
    exact (node_line_at _ _ _ _ _ _ Hlns Hi).
Qed.

Lemma tier1_ids_elem sys x :
  x ∈ tier1_ids sys <->
  exists u inf, (u, inf) ∈ sys /\ info_tier inf = Some 1%Z /\ info_id inf = x.
Proof.
  unfold tier1_ids. rewrite list_elem_of_fmap. split.
  - intros (inf & -> & Hin). apply list_elem_of_filter in Hin as [Ht Hin].
    apply list_elem_of_fmap in Hin as ([u inf'] & -> & Hin). by exists u, inf'.
  - intros (u & inf & Hin & Ht & <-). exists inf. split; [done|].
    apply list_elem_of_filter. split; [done|].
    apply list_elem_of_fmap. by exists (u, inf).
Qed.

(** C8 (amended): every registered system yields the node line of its tier
    (tier 1: double brackets and the critical glyph; tier 2: single brackets
    and the warning glyph; otherwise single brackets and the name only); the
    [class ... critical] line lists the identifiers of the tier-1 systems in
    registration order and is, with the [classDef] line, left out when there
    is none; a system of another tier adds no entry to that list, so its
    identifier is absent from it unless a tier-1 system has the same
    identifier. *)
Theorem export_mermaid_tier_styling (ms : list SCPManifest) (direction : string) :
  exists st els lns,
    foldlM (register_manifest title) init_mermaid ms = Ok st /\
    mermaid_lines title ms direction = Ok lns /\
    lns = ["flowchart " +:+ direction; EmptyString; "    %% Systems"]
          ++ map node_line (values (systems st))
          ++ [EmptyString; "    %% Dependencies"]
          ++ els
          ++ [EmptyString; "    %% Styling"]
          ++ style_lines (systems st) /\
    (forall inf, info_tier inf = Some 1%Z ->
       node_line inf = "    " +:+ info_id inf +:+ "[[" +:+ dquote +:+ "🔴 "
                         +:+ info_name inf +:+ dquote +:+ "]]") /\
    (forall inf, info_tier inf = Some 2%Z ->
       node_line inf = "    " +:+ info_id inf +:+ "[" +:+ dquote +:+ "🟡 "
                         +:+ info_name inf +:+ dquote +:+ "]") /\
    (forall inf, info_tier inf <> Some 1%Z -> info_tier inf <> Some 2%Z ->
       node_line inf = "    " +:+ info_id inf +:+ "[" +:+ dquote
                         +:+ info_name inf +:+ dquote +:+ "]") /\
    tier1_ids (systems st) =
      map info_id (filter (fun inf => info_tier inf = Some 1%Z)
                     (values (systems st))) /\
    ((forall u inf, (u, inf) ∈ systems st -> info_tier inf <> Some 1%Z) ->
     style_lines (systems st) = []) /\
    ((exists u inf, (u, inf) ∈ systems st /\ info_tier inf = Some 1%Z) ->
     style_lines (systems st) =
       [ "    classDef critical fill:#ff6b6b,stroke:#333,stroke-width:2px";
         "    class " +:+ str_join "," (tier1_ids (systems st)) +:+ " critical" ]) /\
    (forall u inf, (u, inf) ∈ systems st -> info_tier inf <> Some 1%Z ->
       (forall u' inf', (u', inf') ∈ systems st -> info_tier inf' = Some 1%Z ->
                        info_id inf' <> info_id inf) ->
       info_id inf ∉ tier1_ids (systems st)).
Proof.
  rewrite run_register_eq.
  destruct (mermaid_lines_eq ms direction) as (els & _ & Hlns).
  eexists _, els, _. split_and!; [done | exact Hlns | done | ..]; simpl.
  - intros inf Ht. unfold node_line. by rewrite decide_True.
  - intros inf Ht. unfold node_line.
    rewrite decide_False by congruence. by rewrite decide_True.
  - intros inf H1 H2. unfold node_line. by rewrite !decide_False.
  - done.
  - intros Hnone. unfold style_lines.
    destruct (tier1_ids _) as [|x ids] eqn:E; [done|].
    assert (x ∈ tier1_ids (foldl (register_systems title) [] ms)) as Hx
      by (rewrite E; left).
    apply tier1_ids_elem in Hx as (u & inf & Hin & Ht & _).
    by destruct (Hnone u inf Hin).
  - intros (u & inf & Hin & Ht). unfold style_lines.
    destruct (tier1_ids _) as [|x ids] eqn:E; [|done].
    assert (info_id inf ∈ tier1_ids (foldl (register_systems title) [] ms)) as Hx
      by (apply tier1_ids_elem; by exists u, inf).
    rewrite E in Hx. by apply elem_of_nil in Hx.
  - intros u inf Hin Ht Hother Hx.
    apply tier1_ids_elem in Hx as (u' & inf' & Hin' & Ht' & Hid).
    by apply (Hother u' inf' Hin' Ht').
Qed.

(** C10: neither export raises, for any manifest sequence; for a URN
    without a colon, [split(":")[-1]] is the URN itself, so the stub name of
    [export_json] is the whole URN and [_urn_to_id] is the whole URN with
    hyphens replaced. *)
Theorem export_never_raises (ms : list SCPManifest) (direction : string) :
  (exists g, export_json ms = Ok g) /\
  (exists text, export_mermaid title ms direction = Ok text) /\
  (forall u, has_char ":" u = false ->
     list_last (str_split ":" u) = Ok u /\
     _urn_to_id u = str_replace "-" "_" u /\
     stub_info title u = {| info_id := str_replace "-" "_" u;
                      info_name := title (str_replace "-" " " u);
                      info_tier := None |} /\
     forall st dep, dep_system dep = u -> u ∉ seen_urns st ->
       add_stub st dep =
       Ok {| nodes := nodes st ++ [stub_node u u];
             edges := edges st;
             seen_urns := seen_urns st ∪ {[u]} |}).
Proof.
  split_and!.
  - rewrite export_json_eq. by eexists.
  - unfold export_mermaid.
    destruct (mermaid_lines_eq ms direction) as (els & _ & ->). by eexists.
  - intros u Hu.
    assert (_urn_to_id u = str_replace "-" "_" u) as Hid.
    { unfold _urn_to_id. by rewrite str_split_no_sep. }
    split_and!.
    + by rewrite list_last_split, last_segment_whole.
    + done.
    + unfold stub_info. by rewrite Hid, last_segment_whole.
    + intros st dep <- Hnew. rewrite add_stub_eq. unfold stub_nodes.
      rewrite decide_False by done. by rewrite last_segment_whole.
Qed.

End MermaidProperties.

(** ** Concrete diagrams *)

Lemma export_mermaid_last_declaration_wins_witness :
  Forall (fun m' => urn (system m') <> urn (system user_service)) [] /\
  (exists lns,
     mermaid_lines ascii_title ([order_service] ++ user_service :: []) "LR" = Ok lns /\
     lns !! 4%nat =
       Some (node_line {| info_id := "user_service";
                          info_name := "User Service";
                          info_tier := Some 2%Z |})) /\
  (exists g,
     export_json ([order_service] ++ user_service :: []) = Ok g /\
     filter (system_for "urn:scp:test:user-service") (g_nodes g)
       = [stub_node "urn:scp:test:user-service" "user-service"]).
Proof.
  split; [constructor|]. split.
  - destruct (export_mermaid_last_declaration_wins ascii_title [order_service]
                user_service [] "LR" (Forall_nil_2 _))
      as (st0 & st & lns & _ & Hst & Hlns & _ & _ & _ & Hline).
    exists lns. split; [exact Hlns|].
    vm_compute in Hst. injection Hst as <-.
    exact (Hline 1%nat eq_refl).
  - eexists. split; vm_compute; reflexivity.
Defined.

(** The fixture rendered: the edge line asserted by
    [test_export_dependency_edge] and the style block. *)
Example export_mermaid_fixture_lines :
  exists lns,
    mermaid_lines ascii_title [order_service; user_service] "LR" = Ok lns /\
    lns =
      [ "flowchart LR"; EmptyString; "    %% Systems";
        node_line {| info_id := "order_service"; info_name := "Order Service";
                     info_tier := Some 1%Z |};
        node_line {| info_id := "user_service"; info_name := "User Service";
                     info_tier := Some 2%Z |};
        EmptyString; "    %% Dependencies";
        "    order_service -->|user-lookup| user_service";
        EmptyString; "    %% Styling";
        "    classDef critical fill:#ff6b6b,stroke:#333,stroke-width:2px";
        "    class order_service critical" ].
Proof. eexists. split; vm_compute; reflexivity. Qed.

(** C8, as stated, fails for a tier-2 system whose identifier is shared with
    a tier-1 system: the [class] line names that identifier. *)
Lemma export_mermaid_shared_id_in_critical_list :
  exists st lns,
    foldlM (register_manifest ascii_title) init_mermaid [billing_eu; billing_us]
      = Ok st /\
    dict_get "urn:scp:us:billing" (systems st) =
      Some {| info_id := "billing"; info_name := "Billing US";
              info_tier := Some 2%Z |} /\
    tier1_ids (systems st) = ["billing"] /\
    "billing" ∈ tier1_ids (systems st) /\
    mermaid_lines ascii_title [billing_eu; billing_us] "LR" = Ok lns /\
    lns =
      [ "flowchart LR"; EmptyString; "    %% Systems";
        node_line {| info_id := "billing"; info_name := "Billing EU";
                     info_tier := Some 1%Z |};
        node_line {| info_id := "billing"; info_name := "Billing US";
                     info_tier := Some 2%Z |};
        EmptyString; "    %% Dependencies";
        EmptyString; "    %% Styling";
        "    classDef critical fill:#ff6b6b,stroke:#333,stroke-width:2px";
        "    class billing critical" ].
Proof.
  do 2 eexists. split; [vm_compute; reflexivity|].
  split; [reflexivity|]. split; [reflexivity|]. split; [left|].
  split; vm_compute; reflexivity.
Qed.

Lemma export_mermaid_tier_styling_witness :
  exists st,
    foldlM (register_manifest ascii_title) init_mermaid [order_service; user_service]
      = Ok st /\
    (exists u inf, (u, inf) ∈ systems st /\ info_tier inf = Some 1%Z) /\
    style_lines (systems st) =
      [ "    classDef critical fill:#ff6b6b,stroke:#333,stroke-width:2px";
        "    class order_service critical" ] /\
    "user_service" ∉ tier1_ids (systems st).
Proof.
  destruct (export_mermaid_tier_styling ascii_title [order_service; user_service] "LR")
    as (st & els & lns & Hst & _ & _ & _ & _ & _ & _ & _ & Hstyle & Hout).
  exists st. split; [exact Hst|].
  vm_compute in Hst. injection Hst as <-.
  assert (exists u inf,
            (u, inf) ∈ [("urn:scp:test:order-service",
                          {| info_id := "order_service";
                             info_name := "Order Service";
                             info_tier := Some 1%Z |});
                         ("urn:scp:test:user-service",
                          {| info_id := "user_service";
                             info_name := "User Service";
                             info_tier := Some 2%Z |})]
            /\ info_tier inf = Some 1%Z) as Hsome.
  { do 2 eexists. split; [left|reflexivity]. }
  split; [exact Hsome|]. split; [exact (Hstyle Hsome)|].
  apply (Hout "urn:scp:test:user-service"
           {| info_id := "user_service"; info_name := "User Service";
              info_tier := Some 2%Z |}).
  - right. left.
  - discriminate.
  - intros u' inf' Hin Ht.
    apply elem_of_cons in Hin as [[= -> ->]|Hin]; [discriminate|].
    apply list_elem_of_singleton in Hin as [= -> ->]. discriminate.
Defined.

Lemma export_never_raises_witness :
  has_char ":" "orders-db" = false /\
  list_last (str_split ":" "orders-db") = Ok "orders-db" /\
  _urn_to_id "orders-db" = "orders_db" /\
  exists text, export_mermaid ascii_title [order_service; user_service] "LR" = Ok text.
Proof.
  destruct (export_never_raises ascii_title [order_service; user_service] "LR")
    as (_ & Htext & Hu).
  destruct (Hu "orders-db" eq_refl) as (Hlast & Hid & _).
  split; [reflexivity|]. split; [exact Hlast|]. split; [exact Hid|]. exact Htext.
Defined.

(** * Further properties of [export.py] *)

(** ** Identifier derivation *)

Lemma str_replace_removes a b s : a <> b -> has_char a (str_replace a b s) = false.
Proof.
  intros Hne. induction s as [|c s IH]; simpl; [done|]. rewrite IH.
  destruct (Ascii.eqb_spec c a) as [->|Hc].
  - by destruct (Ascii.eqb_spec b a) as [->|].
  - by destruct (Ascii.eqb_spec c a).
Qed.

Lemma str_replace_keeps_absent c a b s :
  c <> b -> has_char c s = false -> has_char c (str_replace a b s) = false.
Proof.
  intros Hne. induction s as [|x s IH]; simpl; [done|].
  intros [Hx Hs]%orb_false_iff. rewrite (IH Hs).
  destruct (Ascii.eqb_spec x a) as [->|_]; [|by rewrite Hx].
  by destruct (Ascii.eqb_spec b c) as [->|].
Qed.

Lemma str_replace_absent a b s : has_char a s = false -> str_replace a b s = s.
Proof.
  induction s as [|x s IH]; simpl; [done|].
  intros [Hx Hs]%orb_false_iff. by rewrite Hx, (IH Hs).
Qed.

(** X1: [_urn_to_id] returns a string without hyphen and without colon, and
    applying it to its own result changes nothing. *)
Theorem urn_to_id_clean (u : string) :
  has_char "-" (_urn_to_id u) = false /\
  has_char ":" (_urn_to_id u) = false /\
  _urn_to_id (_urn_to_id u) = _urn_to_id u.
Proof.
  assert (_urn_to_id u = str_replace "-" "_" (last_segment u)) as Heq by done.
  assert (has_char "-" (_urn_to_id u) = false) as Hh
    by (rewrite Heq; by apply str_replace_removes).
  assert (has_char ":" (_urn_to_id u) = false) as Hc.
  { rewrite Heq. apply str_replace_keeps_absent; [done|].
    apply last_segment_no_colon. }
  split_and!; [done..|].
  unfold _urn_to_id at 1. rewrite (str_split_no_sep ":" _ Hc). simpl.
  by apply str_replace_absent.
Qed.

Lemma has_char_app c s1 s2 :
  has_char c (s1 +:+ s2) = has_char c s1 || has_char c s2.
Proof.
  induction s1 as [|a s1 IH]; [done|].
  change (String a s1 +:+ s2) with (String a (s1 +:+ s2)). simpl.
  by rewrite IH, orb_assoc.
Qed.

Lemma colon_join_inj (u1 u2 n1 n2 : string) :
  has_char ":" n1 = false -> has_char ":" n2 = false ->
  u1 +:+ ":" +:+ n1 = u2 +:+ ":" +:+ n2 -> u1 = u2 /\ n1 = n2.
Proof.
  intros H1 H2. revert u2. induction u1 as [|a u1 IH]; intros [|b u2] Heq.
  - change (String ":" n1 = String ":" n2) in Heq. by injection Heq as ->.
  - change (String ":" n1 = String b (u2 +:+ ":" +:+ n2)) in Heq.
    injection Heq as <- ->. rewrite !has_char_app in H1. simpl in H1.
    by rewrite orb_true_r in H1.
  - change (String a (u1 +:+ ":" +:+ n1) = String ":" n2) in Heq.
    injection Heq as -> <-. rewrite !has_char_app in H2. simpl in H2.
    by rewrite orb_true_r in H2.
  - change (String a (u1 +:+ ":" +:+ n1) = String b (u2 +:+ ":" +:+ n2)) in Heq.
    injection Heq as -> Heq. by destruct (IH _ Heq) as [-> ->].
Qed.

(** X2: capability identifiers are namespaced by their owner: when the two
    capability names contain no colon, equal identifiers [urn:name] mean the
    same owner URN and the same capability name. *)
Theorem cap_id_injective (u1 u2 : string) (c1 c2 : Capability) :
  has_char ":" (cap_capability c1) = false ->
  has_char ":" (cap_capability c2) = false ->
  cap_id u1 c1 = cap_id u2 c2 ->
  u1 = u2 /\ cap_capability c1 = cap_capability c2.
Proof. unfold cap_id. apply colon_join_inj. Qed.

Lemma cap_id_injective_witness :
  has_char ":" "user-lookup" = false /\
  (cap_id "urn:scp:test:user-service"
     {| cap_capability := "user-lookup"; cap_type := Some "rest" |}
   = cap_id "urn:scp:test:user-service"
       {| cap_capability := "user-lookup"; cap_type := None |}) /\
  "urn:scp:test:user-service" = "urn:scp:test:user-service".
Proof.
  split; [reflexivity|]. split; [reflexivity|].
  exact (proj1 (cap_id_injective "urn:scp:test:user-service"
                  "urn:scp:test:user-service"
                  {| cap_capability := "user-lookup"; cap_type := Some "rest" |}
                  {| cap_capability := "user-lookup"; cap_type := None |}
                  eq_refl eq_refl eq_refl)).
Defined.

(** ** Where the records of the graph come from *)

Lemma node_origin_cons m ms n : node_origin ms n -> node_origin (m :: ms) n.
Proof.
  intros [(m' & ? & ?)|[(m' & d & ? & ? & ?)|(m' & c & ? & ? & ?)]].
  - left. exists m'. set_solver.
  - right. left. exists m', d. set_solver.
  - right. right. exists m', c. set_solver.
Qed.

Lemma edge_origin_cons m ms e : edge_origin ms e -> edge_origin (m :: ms) e.
Proof.
  intros [(m' & d & ? & ? & ?)|(m' & c & ? & ? & ?)].
  - left. exists m', d. set_solver.
  - right. exists m', c. set_solver.
Qed.

Lemma ordered_nodes_origin seen ms : Forall (node_origin ms) (ordered_nodes seen ms).
Proof.
  revert seen. induction ms as [|m ms IH]; intros seen; simpl; [done|].
  unfold manifest_nodes. rewrite !Forall_app. split_and!.
  - unfold sys_nodes. destruct (decide (urn (system m) ∈ seen)); [done|].
    constructor; [|done]. left. exists m. set_solver.
  - eapply Forall_impl; [apply deps_nodes_stubs|].
    intros n (d & ? & _ & ->). right. left. exists m, d. set_solver.
  - apply Forall_forall. intros n (c & -> & Hc)%list_elem_of_fmap.
    right. right. exists m, c. set_solver.
  - eapply Forall_impl; [apply IH|]. intros n. apply node_origin_cons.
Qed.

Lemma ordered_edges_origin ms : Forall (edge_origin ms) (ordered_edges ms).
Proof.
  induction ms as [|m ms IH]; simpl; [done|].
  unfold manifest_edges. rewrite !Forall_app. split_and!.
  - apply Forall_forall. intros e (d & -> & Hd)%list_elem_of_fmap.
    left. exists m, d. set_solver.
  - apply Forall_forall. intros e (c & -> & Hc)%list_elem_of_fmap.
    right. exists m, c. set_solver.
  - eapply Forall_impl; [apply IH|]. intros e. apply edge_origin_cons.
Qed.

(** X3: [export_json] invents nothing: every record of [nodes] is the system
    node of an input manifest, the stub of a dependency of an input manifest,
    or the capability node of a capability of an input manifest, and every
    record of [edges] is the DEPENDS_ON edge of an input dependency or the
    PROVIDES edge of an input capability. *)
Theorem export_json_provenance (ms : list SCPManifest) :
  exists g, export_json ms = Ok g /\
    Forall (node_origin ms) (g_nodes g) /\
    Forall (edge_origin ms) (g_edges g).
Proof.
  rewrite export_json_eq. eexists. split; [done|]. simpl.
  split; [apply ordered_nodes_origin | apply ordered_edges_origin].
Qed.

(** ** Counts in terms of the input *)

Lemma system_ids_app ns1 ns2 : system_ids (ns1 ++ ns2) = system_ids ns1 ++ system_ids ns2.
Proof. unfold system_ids, node_ids. by rewrite filter_app, map_app. Qed.

Lemma system_ids_deps_nodes seen deps :
  system_ids (deps_nodes seen deps) = map (fun u => Some (VStr u)) (fresh_deps seen deps).
Proof.
  revert seen. induction deps as [|d ds IH]; intros seen; simpl; [done|].
  rewrite system_ids_app, map_app, IH. f_equal.
  unfold stub_nodes. by destruct (decide (dep_system d ∈ seen)).
Qed.

Lemma system_ids_capabilities u caps : system_ids (map (capability_node u) caps) = [].
Proof.
  unfold system_ids, node_ids. rewrite filter_none; [done|].
  apply Forall_map, Forall_true. by intros c.
Qed.

Lemma system_ids_ordered_nodes seen ms :
  system_ids (ordered_nodes seen ms) = map (fun u => Some (VStr u)) (fresh_urns seen ms).
Proof.
  revert seen. induction ms as [|m ms IH]; intros seen; simpl; [done|].
  unfold manifest_nodes.
  rewrite !system_ids_app, !map_app, IH, system_ids_deps_nodes,
    system_ids_capabilities, app_nil_r, <- app_assoc. f_equal.
  unfold sys_nodes. by destruct (decide (urn (system m) ∈ seen)).
Qed.

Lemma fresh_deps_elem seen deps x :
  x ∈ fresh_deps seen deps <-> x ∈ dep_targets deps /\ x ∉ seen.
Proof.
  unfold dep_targets. revert seen. induction deps as [|d ds IH]; intros seen; simpl.
  - set_solver.
  - rewrite elem_of_app, IH.
    destruct (decide (dep_system d ∈ seen)); destruct (decide (x = dep_system d));
      set_solver.
Qed.

Lemma fresh_deps_nodup seen deps : NoDup (fresh_deps seen deps).
Proof.
  revert seen. induction deps as [|d ds IH]; intros seen; simpl; [constructor|].
  apply NoDup_app. split_and!; [|intros x Hx|done].
  - destruct (decide (dep_system d ∈ seen)); [constructor|apply NoDup_singleton].
  - rewrite fresh_deps_elem.
    destruct (decide (dep_system d ∈ seen)); set_solver.
Qed.

Lemma fresh_urns_elem seen ms x :
  x ∈ fresh_urns seen ms <-> x ∈ all_urns ms /\ x ∉ seen.
Proof.
  revert seen. induction ms as [|m ms IH]; intros seen; simpl.
  - set_solver.
  - rewrite !elem_of_app, IH, fresh_deps_elem. unfold manifest_urns.
    destruct (decide (urn (system m) ∈ seen));
      destruct (decide (x = urn (system m)));
      destruct (decide (x ∈ dep_targets (items (depends m)))); set_solver.
Qed.

Lemma fresh_urns_nodup seen ms : NoDup (fresh_urns seen ms).
Proof.
  revert seen. induction ms as [|m ms IH]; intros seen; simpl; [constructor|].
  apply NoDup_app. split_and!; [|intros x Hx|apply NoDup_app; split_and!].
  - destruct (decide (urn (system m) ∈ seen)); [constructor|apply NoDup_singleton].
  - rewrite elem_of_app, fresh_deps_elem, fresh_urns_elem. unfold manifest_urns.
    destruct (decide (urn (system m) ∈ seen)); set_solver.
  - apply fresh_deps_nodup.
  - intros x. rewrite fresh_deps_elem, fresh_urns_elem. unfold manifest_urns.
    set_solver.
  - apply IH.
Qed.

Lemma fresh_urns_size ms : length (fresh_urns ∅ ms) = size (all_urns ms).
Proof.
  rewrite <- (size_list_to_set (C := gset string)) by apply fresh_urns_nodup.
  f_equal. apply set_eq. intros x.
  rewrite elem_of_list_to_set, fresh_urns_elem. set_solver.
Qed.

Lemma count_capability_nodes seen ms :
  length (filter (has_type "Capability") (ordered_nodes seen ms))
  = sum_list_with (fun m => length (items (provides m))) ms.
Proof.
  revert seen. induction ms as [|m ms IH]; intros seen; simpl; [done|].
  unfold manifest_nodes. rewrite !filter_app, !length_app, IH.
  rewrite (filter_none _ (sys_nodes seen m)), (filter_none _ (deps_nodes _ _)),
    (filter_all _ (map _ _)); simpl.
  - by rewrite length_map.
  - apply Forall_map, Forall_true. by intros c.
  - eapply Forall_impl; [apply deps_nodes_all_system|].
    intros n. unfold has_type. congruence.
  - unfold sys_nodes. destruct (decide (urn (system m) ∈ seen)); [done|].
    constructor; [|done]. by intros [=].
Qed.

Lemma count_depends_edges ms :
  length (filter (has_type "DEPENDS_ON") (ordered_edges ms))
  = sum_list_with (fun m => length (items (depends m))) ms.
Proof.
  induction ms as [|m ms IH]; simpl; [done|].
  unfold manifest_edges. rewrite !filter_app, !length_app, IH.
  rewrite (filter_all _ (map (depends_edge _) _)),
    (filter_none _ (map (provides_edge _) _)); simpl.
  - rewrite length_map. lia.
  - apply Forall_map, Forall_true. by intros c.
  - apply Forall_map, Forall_true. by intros d.
Qed.

Lemma count_edges ms :
  length (ordered_edges ms)
  = sum_list_with (fun m => length (items (depends m))) ms
    + sum_list_with (fun m => length (items (provides m))) ms.
Proof.
  induction ms as [|m ms IH]; simpl; [done|].
  unfold manifest_edges. rewrite !length_app, !length_map, IH. lia.
Qed.

(** X4: the counts of [export_json] in terms of the input: [systems_count] is
    the number of distinct URNs that occur as a system URN or as a dependency
    target, [capabilities_count] the total number of provided capabilities and
    [dependencies_count] the total number of dependencies, repetitions
    included; [edges] has one record per dependency and per capability. *)
Theorem export_json_counts_of_input (ms : list SCPManifest) :
  exists g, export_json ms = Ok g /\
    systems_count (g_meta g) = size (all_urns ms) /\
    capabilities_count (g_meta g)
      = sum_list_with (fun m => length (items (provides m))) ms /\
    dependencies_count (g_meta g)
      = sum_list_with (fun m => length (items (depends m))) ms /\
    length (g_edges g)
      = dependencies_count (g_meta g) + capabilities_count (g_meta g).
Proof.
  rewrite export_json_eq. eexists. split; [done|]. simpl.
  rewrite count_capability_nodes, count_depends_edges, count_edges.
  split_and!; [|done..].
  rewrite <- fresh_urns_size.
  transitivity (length (system_ids (ordered_nodes ∅ ms))).
  - unfold system_ids, node_ids. by rewrite length_map.
  - by rewrite system_ids_ordered_nodes, length_map.
Qed.

(** ** One System node per mentioned URN *)

Lemma first_node_length U ms :
  length (first_node U ms) = if decide (U ∈ all_urns ms) then 1 else 0.
Proof.
  induction ms as [|m ms IH]; simpl.
  - by rewrite decide_False by set_solver.
  - unfold manifest_urns.
    destruct (decide (urn (system m) = U)) as [<-|Hne].
    { by rewrite decide_True by set_solver. }
    destruct (decide (U ∈ dep_targets (items (depends m)))) as [Ht|Ht].
    { by rewrite decide_True by set_solver. }
    rewrite IH. destruct (decide (U ∈ all_urns ms)).
    + by rewrite decide_True by set_solver.
    + by rewrite decide_False by set_solver.
Qed.

(** X5: for every URN, [nodes] holds exactly one System-typed record with
    that identifier when the URN occurs in the input as a system URN or as a
    dependency target, and none otherwise. *)
Theorem export_json_one_system_node (ms : list SCPManifest) (U : string) :
  exists g, export_json ms = Ok g /\
    length (filter (system_for U) (g_nodes g))
      = (if decide (U ∈ all_urns ms) then 1 else 0) /\
    (U ∈ all_urns ms <-> Exists (mentions U) ms).
Proof.
  rewrite export_json_eq. eexists. split; [done|]. simpl.
  split; [|apply elem_of_all_urns].
  rewrite filter_ordered_nodes, decide_False by set_solver.
  apply first_node_length.
Qed.

(** ** The registry of the diagram against the nodes of the graph *)

Section MermaidFurther.

Variable title : string -> string.

Lemma keys_record_stubs deps sys :
  keys (foldl (record_stub title) sys deps)
  = keys sys ++ fresh_deps (list_to_set (keys sys)) deps.
Proof.
  revert sys. induction deps as [|d ds IH]; intros sys; simpl.
  - by rewrite app_nil_r.
  - rewrite IH. unfold record_stub.
    destruct (dict_mem (dep_system d) sys) eqn:E.
    + apply dict_mem_true in E.
      rewrite decide_True by set_solver. simpl. do 2 f_equal. set_solver.
    + assert (dep_system d ∉ keys sys) as Hn.
      { intros Hk. apply dict_mem_true in Hk. congruence. }
      rewrite decide_False by set_solver.
      rewrite keys_dict_set, E, <- app_assoc. simpl. do 3 f_equal.
      rewrite list_to_set_app_L. set_solver.
Qed.

Lemma keys_register_systems sys m :
  keys (register_systems title sys m)
  = keys sys
    ++ (if decide (urn (system m) ∈ (list_to_set (keys sys) : gset string))
        then [] else [urn (system m)])
    ++ fresh_deps (list_to_set (keys sys) ∪ {[urn (system m)]}) (items (depends m)).
Proof.
  unfold register_systems. rewrite keys_record_stubs, keys_dict_set.
  destruct (dict_mem (urn (system m)) sys) eqn:E.
  - apply dict_mem_true in E. rewrite decide_True by set_solver. simpl.
    do 2 f_equal. set_solver.
  - assert (urn (system m) ∉ keys sys) as Hn.
    { intros Hk. apply dict_mem_true in Hk. congruence. }
    rewrite decide_False by set_solver. rewrite <- app_assoc. simpl.
    do 3 f_equal. rewrite list_to_set_app_L. set_solver.
Qed.

Lemma keys_registry ms sys :
  keys (foldl (register_systems title) sys ms)
  = keys sys ++ fresh_urns (list_to_set (keys sys)) ms.
Proof.
  revert sys. induction ms as [|m ms IH]; intros sys; simpl.
  - by rewrite app_nil_r.
  - rewrite IH, keys_register_systems, <- !app_assoc. do 3 f_equal.
    rewrite !list_to_set_app_L.
    assert (list_to_set (fresh_deps (list_to_set (keys sys) ∪ {[urn (system m)]})
                           (items (depends m)))
            ∪ (list_to_set (keys sys) ∪ {[urn (system m)]})
            = dep_targets (items (depends m))
              ∪ (list_to_set (keys sys) ∪ {[urn (system m)]}) :> gset string) as Hd.
    { apply set_eq. intros x. rewrite !elem_of_union, elem_of_list_to_set,
        fresh_deps_elem.
      destruct (decide (x ∈ (list_to_set (keys sys) ∪ {[urn (system m)]}
                              : gset string))); set_solver. }
    unfold manifest_urns.
    apply (f_equal (fun S : gset string => fresh_urns S ms)).
    apply set_eq. intros x.
    assert (x ∈ list_to_set
                  (fresh_deps (list_to_set (keys sys) ∪ {[urn (system m)]})
                     (items (depends m)))
                ∪ ((list_to_set (keys sys) : gset string) ∪ {[urn (system m)]})
            <-> x ∈ dep_targets (items (depends m))
                    ∪ ((list_to_set (keys sys) : gset string) ∪ {[urn (system m)]}))
      as Hx by (by rewrite Hd).
    clear Hd. rewrite !elem_of_union in Hx. rewrite !elem_of_union.
    destruct (decide (urn (system m) ∈ (list_to_set (keys sys) : gset string)))
      as [Hu|Hu]; [rewrite list_to_set_nil|rewrite list_to_set_singleton];
      rewrite ?elem_of_empty, ?elem_of_singleton in *.
    + destruct (decide (x = urn (system m))) as [->|]; tauto.
    + tauto.
Qed.

(** X6: the two exports agree on the systems: the keys of the diagram's
    registry, in registration order, are the identifiers of the System-typed
    nodes of the graph, in emission order; in particular the diagram declares
    as many nodes as [systems_count] says. *)
Theorem exports_agree_on_systems (ms : list SCPManifest) :
  exists g st,
    export_json ms = Ok g /\
    foldlM (register_manifest title) init_mermaid ms = Ok st /\
    system_ids (g_nodes g) = map (fun u => Some (VStr u)) (keys (systems st)) /\
    length (systems st) = systems_count (g_meta g).
Proof.
  rewrite export_json_eq, run_register_eq. do 2 eexists.
  split_and!; [done..| |]; simpl.
  - rewrite system_ids_ordered_nodes, keys_registry. simpl. do 2 f_equal.
  - transitivity (length (keys (foldl (register_systems title) [] ms))).
    { unfold keys. by rewrite length_map. }
    rewrite keys_registry. simpl.
    transitivity (length (system_ids (ordered_nodes ∅ ms))).
    + by rewrite system_ids_ordered_nodes, length_map.
    + unfold system_ids, node_ids. by rewrite length_map.
Qed.

(** ** The lines of the diagram *)

Lemma ids_derived_set sys u inf :
  ids_derived sys -> info_id inf = _urn_to_id u -> ids_derived (dict_set u inf sys).
Proof.
  intros Hsys Hinf u' inf'. destruct (decide (u = u')) as [<-|Hne].
  - rewrite dict_get_set_eq. by intros [= <-].
  - rewrite dict_get_set_ne by done. apply Hsys.
Qed.

Lemma ids_derived_record_stub sys dep :
  ids_derived sys -> ids_derived (record_stub title sys dep).
Proof.
  intros Hsys. unfold record_stub. destruct (dict_mem _ sys); [done|].
  by apply ids_derived_set.
Qed.

Lemma ids_derived_register_systems sys m :
  ids_derived sys -> ids_derived (register_systems title sys m).
Proof.
  intros Hsys. unfold register_systems.
  apply foldl_invariant; [intros; by apply ids_derived_record_stub|].
  by apply ids_derived_set.
Qed.

Lemma ids_derived_registry ms :
  ids_derived (foldl (register_systems title) [] ms).
Proof.
  apply foldl_invariant; [intros; by apply ids_derived_register_systems|].
  by intros u inf.
Qed.

Lemma edge_lines_app sys ds1 ds2 l1 l2 :
  edge_lines sys ds1 = Ok l1 -> edge_lines sys ds2 = Ok l2 ->
  edge_lines sys (ds1 ++ ds2) = Ok (l1 ++ l2).
Proof.
  revert l1. induction ds1 as [|d ds1 IH]; intros l1; simpl.
  - by intros [= <-].
  - destruct (edge_line sys d) as [ln|]; simpl; [|done].
    destruct (edge_lines sys ds1) as [r|]; simpl; [|done].
    intros [= <-] H2. by rewrite (IH r eq_refl H2).
Qed.

Lemma edge_line_derived sys u dep :
  ids_derived sys -> covered sys (dep_triple u dep) ->
  edge_line sys (dep_triple u dep) = Ok (dependency_line u dep).
Proof.
  intros Hids [Hu Ht]. simpl in Hu, Ht.
  apply dict_mem_true in Hu, Ht. unfold dict_mem in Hu, Ht.
  unfold edge_line, dep_triple, dict_item, dependency_line.
  destruct (dict_get u sys) as [fi|] eqn:Ef; [|done].
  destruct (dict_get (dep_system dep) sys) as [ti|] eqn:Et; [|done].
  simpl. by rewrite (Hids _ _ Ef), (Hids _ _ Et).
Qed.

Lemma edge_lines_dependencies sys u deps :
  ids_derived sys -> Forall (covered sys) (map (dep_triple u) deps) ->
  edge_lines sys (map (dep_triple u) deps) = Ok (map (dependency_line u) deps).
Proof.
  intros Hids. induction deps as [|d ds IH]; [done|]. cbn [map edge_lines].
  intros [Hd Hds]%Forall_cons. rewrite edge_line_derived by done.
  cbn [mbind result_bind]. by rewrite IH.
Qed.

Lemma edge_lines_all sys ms :
  ids_derived sys -> Forall (covered sys) (all_triples ms) ->
  edge_lines sys (all_triples ms) = Ok (dependency_lines ms).
Proof.
  intros Hids. induction ms as [|m ms IH]; simpl; [done|].
  intros [Hm Hms]%Forall_app.
  apply edge_lines_app; [by apply edge_lines_dependencies | by apply IH].
Qed.

Lemma dependency_lines_length ms :
  length (dependency_lines ms)
  = sum_list_with (fun m => length (items (depends m))) ms.
Proof.
  induction ms as [|m ms IH]; simpl; [done|].
  by rewrite length_app, length_map, IH.
Qed.

(** X7: the edge section of the diagram depends on the dependencies alone:
    it holds one line per dependency, in input order, from the identifier
    derived from the consumer's URN to the one derived from the target's URN,
    labelled with the capability when that is a non-empty string; every
    registry entry carries the identifier derived from its URN. *)
Theorem export_mermaid_edge_section (ms : list SCPManifest) (direction : string) :
  exists st,
    foldlM (register_manifest title) init_mermaid ms = Ok st /\
    ids_derived (systems st) /\
    mermaid_lines title ms direction =
      Ok (["flowchart " +:+ direction; EmptyString; "    %% Systems"]
          ++ map node_line (values (systems st))
          ++ [EmptyString; "    %% Dependencies"]
          ++ dependency_lines ms
          ++ [EmptyString; "    %% Styling"]
          ++ style_lines (systems st)) /\
    length (dependency_lines ms)
      = sum_list_with (fun m => length (items (depends m))) ms.
Proof.
  rewrite run_register_eq. eexists. split; [done|]. simpl.
  split; [apply ids_derived_registry|]. split; [|apply dependency_lines_length].
  unfold mermaid_lines. rewrite run_register_eq. simpl.
  rewrite edge_lines_all; [done|apply ids_derived_registry|apply registry_covers].
Qed.

(** ** Stubs of the diagram *)

Lemma record_stub_keeps_stub U sys dep :
  stub_or_absent title U sys ->
  stub_or_absent title U (record_stub title sys dep) /\
  (dep_system dep = U \/ dict_get U sys = Some (stub_info title U) ->
   dict_get U (record_stub title sys dep) = Some (stub_info title U)).
Proof.
  intros HP. unfold record_stub, stub_or_absent.
  destruct (dict_mem (dep_system dep) sys) eqn:E.
  - split; [done|]. intros [<-|H]; [|done].
    unfold dict_mem in E. destruct HP as [HP|HP]; [by rewrite HP in E|done].
  - destruct (decide (dep_system dep = U)) as [<-|Hne].
    + rewrite dict_get_set_eq. by split; [right|].
    + rewrite dict_get_set_ne by done. split; [done|]. by intros [?|?].
Qed.

Lemma record_stubs_keep_stub U deps sys :
  stub_or_absent title U sys ->
  stub_or_absent title U (foldl (record_stub title) sys deps) /\
  (U ∈ dep_targets deps \/ dict_get U sys = Some (stub_info title U) ->
   dict_get U (foldl (record_stub title) sys deps) = Some (stub_info title U)).
Proof.
  revert sys. induction deps as [|d ds IH]; intros sys HP; simpl.
  - split; [done|]. unfold dep_targets. simpl. intros [?|?]; [set_solver|done].
  - destruct (record_stub_keeps_stub U sys d HP) as [HP1 Hget1].
    destruct (IH _ HP1) as [HP2 Hget2]. split; [done|].
    unfold dep_targets. simpl. intros [Hin|Hs].
    + apply elem_of_union in Hin as [Hin|Hin].
      * apply elem_of_singleton in Hin. apply Hget2. right. apply Hget1. by left.
      * apply Hget2. by left.
    + apply Hget2. right. apply Hget1. by right.
Qed.

Lemma registry_keeps_stub U ms sys :
  Forall (fun m => urn (system m) <> U) ms -> stub_or_absent title U sys ->
  stub_or_absent title U (foldl (register_systems title) sys ms) /\
  (Exists (depends_on U) ms \/ dict_get U sys = Some (stub_info title U) ->
   dict_get U (foldl (register_systems title) sys ms) = Some (stub_info title U)).
Proof.
  intros Hms. revert sys. induction Hms as [|m ms Hm _ IH]; intros sys HP; simpl.
  - split; [done|]. intros [H|H]; [by apply Exists_nil in H|done].
  - assert (stub_or_absent title U (dict_set (urn (system m)) (manifest_info m) sys)) as HP0.
    { unfold stub_or_absent. by rewrite dict_get_set_ne. }
    destruct (record_stubs_keep_stub U (items (depends m)) _ HP0) as [HP1 Hget1].
    fold (register_systems title sys m) in HP1, Hget1.
    destruct (IH _ HP1) as [HP2 Hget2]. split; [done|].
    intros [Hex|Hs].
    + apply Exists_cons in Hex as [Hd|Hex]; [|apply Hget2; by left].
      apply Hget2. right. apply Hget1. left. by apply elem_of_dep_targets.
    + apply Hget2. right. apply Hget1. right. by rewrite dict_get_set_ne.
Qed.

Lemma dict_get_elem {V} k (v : V) d : dict_get k d = Some v -> (k, v) ∈ d.
Proof.
  induction d as [|[k' v'] d IH]; simpl; [done|].
  destruct (String.eqb_spec k k') as [->|Hne].
  - intros [= ->]. left.
  - intros H. right. by apply IH.
Qed.

(** X8: a dependency target that no manifest of the input declares stays a
    stub in the diagram: its registry entry has the derived identifier, the
    title-cased last URN segment (hyphens as spaces) as name and no tier, and
    its node line is the plain single-bracket line. *)
Theorem export_mermaid_undeclared_stub (ms : list SCPManifest) (U : string)
    (direction : string) :
  Forall (fun m => urn (system m) <> U) ms ->
  Exists (depends_on U) ms ->
  exists st lns,
    foldlM (register_manifest title) init_mermaid ms = Ok st /\
    dict_get U (systems st) =
      Some {| info_id := _urn_to_id U;
              info_name := title (str_replace "-" " " (last_segment U));
              info_tier := None |} /\
    mermaid_lines title ms direction = Ok lns /\
    "    " +:+ _urn_to_id U +:+ "[" +:+ dquote
      +:+ title (str_replace "-" " " (last_segment U)) +:+ dquote +:+ "]" ∈ lns.
Proof.
  intros Hms Hdep. rewrite run_register_eq.
  destruct (mermaid_lines_eq title ms direction) as (els & _ & Hlns).
  assert (dict_get U (foldl (register_systems title) [] ms)
          = Some (stub_info title U)) as Hget.
  { apply registry_keeps_stub; [done|by left|by left]. }
  do 2 eexists. split_and!; [done|exact Hget|exact Hlns|].
  apply dict_get_elem in Hget.
  rewrite !elem_of_app. right. right. left.
  apply list_elem_of_fmap. exists (stub_info title U). split; [done|].
  unfold values. apply list_elem_of_fmap. by exists (U, stub_info title U).
Qed.

(** ** Header and empty input *)

(** X9: whatever the direction string (it is not checked against TB, BT, LR,
    RL), the text of [export_mermaid] starts with the line [flowchart
    <direction>]; on the empty manifest list it is exactly the skeleton of
    the three comment sections. *)
Theorem export_mermaid_header (ms : list SCPManifest) (direction : string) :
  (exists rest,
     export_mermaid title ms direction
     = Ok ("flowchart " +:+ direction +:+ nl +:+ rest)) /\
  export_mermaid title [] direction
  = Ok ("flowchart " +:+ direction +:+ nl
        +:+ nl +:+ "    %% Systems" +:+ nl
        +:+ nl +:+ "    %% Dependencies" +:+ nl
        +:+ nl +:+ "    %% Styling").
Proof.
  split.
  - unfold export_mermaid.
    destruct (mermaid_lines_eq title ms direction) as (els & _ & ->).
    eexists. cbn [mbind result_bind app str_join]. reflexivity.
  - reflexivity.
Qed.

End MermaidFurther.

(** * Properties of [cli.py] *)

(** ** The event monad *)

Lemma cli_bind_returned {A B : Type} (t : list event) (a : A) (f : A -> cli B) :
  mbind f ((t, Returned a) : cli A) = (t ++ (f a).1, (f a).2).
Proof. unfold mbind, cli_bind. by destruct (f a). Qed.

Lemma cli_bind_raised {A B : Type} (t : list event) (r : raised) (f : A -> cli B) :
  mbind f ((t, Raised r) : cli A) = (t, Raised r).
Proof. done. Qed.

Lemma cli_bind_ret {A B : Type} (a : A) (f : A -> cli B) :
  mbind f (mret a : cli A) = f a.
Proof. unfold mbind, cli_bind, mret, cli_ret. by destruct (f a). Qed.

Lemma cli_bind_assoc {A B C : Type} (c : cli A) (f : A -> cli B) (g : B -> cli C) :
  mbind g (mbind f c) = mbind (fun a => mbind g (f a)) c.
Proof.
  destruct c as [t [a|r]]; [|done].
  rewrite !cli_bind_returned. destruct (f a) as [t' [b|r']]; cbn [fst snd].
  - rewrite !cli_bind_returned. cbn [fst snd]. by rewrite app_assoc.
  - by rewrite !cli_bind_raised.
Qed.

Lemma cli_bind_unit (c : cli unit) : (c;; mret tt) = c.
Proof.
  destruct c as [t [[]|r]]; [|done].
  rewrite cli_bind_returned. cbn. by rewrite app_nil_r.
Qed.

Lemma emit_bind {B : Type} (e : event) (f : unit -> cli B) :
  mbind f (emit e) = (e :: (f tt).1, (f tt).2).
Proof. unfold emit. by rewrite cli_bind_returned. Qed.

Lemma throw_bind {A B : Type} (r : raised) (f : A -> cli B) :
  mbind f (throw r) = throw r.
Proof. done. Qed.

Ltac cli_norm :=
  repeat first [ rewrite cli_bind_assoc | rewrite cli_bind_ret
               | rewrite throw_bind | progress cbv beta ].

Section CliProperties.

Variable title : string -> string.
Variable json_dumps : graph -> string.
Variable markup_error : string -> option string.
Variable is_file : string -> bool.
Variable write_text : string -> string -> option string.
Variable scan_directory : string -> dir_outcome.
Variable load_scp : string -> load_outcome.
Variable scan_github_org : string -> string -> github_outcome.
Variable neo4j_session :
  string -> string -> string -> list (SCPManifest * string) -> session_outcome.

(** ** Printing *)

Lemma console_print_accepted t :
  accepted markup_error t ->
  console_print markup_error t = ([Print t], Returned tt).
Proof. unfold accepted, console_print. by intros ->. Qed.

Lemma console_print_rejected t msg :
  markup_error t = Some msg ->
  console_print markup_error t = ([], Raised (Uncaught (MarkupError msg))).
Proof. unfold console_print. by intros ->. Qed.

Lemma print_lines_app l1 l2 :
  print_lines markup_error (l1 ++ l2)
  = (print_lines markup_error l1;; print_lines markup_error l2).
Proof.
  induction l1 as [|t l1 IH]; cbn [print_lines app].
  - by rewrite cli_bind_ret.
  - by rewrite IH, cli_bind_assoc.
Qed.

Lemma print_lines_one t :
  print_lines markup_error [t] = console_print markup_error t.
Proof. cbn [print_lines]. apply cli_bind_unit. Qed.

Lemma print_lines_fold {B : Type} (g : B -> string) (l : list B) :
  cli_fold (fun _ x => console_print markup_error (g x)) tt l
  = print_lines markup_error (map g l).
Proof.
  induction l as [|x l IH]; [done|].
  cbn [cli_fold map print_lines].
  destruct (console_print markup_error (g x)) as [t [[]|r]]; [|reflexivity].
  by rewrite !cli_bind_returned, IH.
Qed.

Lemma print_lines_accepted ts :
  Forall (accepted markup_error) ts ->
  print_lines markup_error ts = (map Print ts, Returned tt).
Proof.
  induction 1 as [|t ts Ht _ IH]; [done|].
  cbn [print_lines map]. rewrite console_print_accepted by done.
  by rewrite cli_bind_returned, IH.
Qed.

Lemma print_lines_rejected pre t post msg :
  Forall (accepted markup_error) pre -> markup_error t = Some msg ->
  print_lines markup_error (pre ++ t :: post)
  = (map Print pre, Raised (Uncaught (MarkupError msg))).
Proof.
  intros Hpre Ht. rewrite print_lines_app. rewrite (print_lines_accepted _ Hpre).
  rewrite cli_bind_returned. cbn [print_lines].
  rewrite (console_print_rejected _ _ Ht), cli_bind_raised. cbn [fst snd].
  by rewrite app_nil_r.
Qed.

Lemma print_then_accepted {A : Type} ts (c : cli A) :
  Forall (accepted markup_error) ts ->
  (print_lines markup_error ts;; c) = (map Print ts ++ c.1, c.2).
Proof. intros H. by rewrite print_lines_accepted, cli_bind_returned. Qed.

Lemma print_then_rejected {A : Type} pre t post msg (c : cli A) :
  Forall (accepted markup_error) pre -> markup_error t = Some msg ->
  (print_lines markup_error (pre ++ t :: post);; c)
  = (map Print pre, Raised (Uncaught (MarkupError msg))).
Proof. intros Hpre Ht. by rewrite (print_lines_rejected _ _ _ _ Hpre Ht). Qed.




(** ** [validate] *)

Lemma validate_file_eq errors scp_file :
  no_crash load_scp scp_file ->
  validate_file markup_error load_scp errors scp_file
  = (print_lines markup_error (file_lines load_scp scp_file);;
     mret (errors + length (failures load_scp [scp_file]))).
Proof.
  intros Hok. unfold validate_file, file_lines. cbn [failures].
  destruct (load_scp scp_file) as [m|e|what] eqn:E.
  - replace (errors + length (@nil SCPParseError)) with errors by (simpl; lia).
    destruct (items (depends m)), (items (provides m));
      cbn [app print_lines]; by cli_norm.
  - replace (errors + length [e]) with (S errors) by (simpl; lia).
    rewrite (print_lines_fold detail_line). cbn [app print_lines].
    unfold detail_line. by cli_norm.
  - by destruct (Hok what).
Qed.

Lemma validate_loop_eq files errors :
  Forall (no_crash load_scp) files ->
  cli_fold (validate_file markup_error load_scp) errors files
  = (print_lines markup_error (concat (map (file_lines load_scp) files));;
     mret (errors + length (failures load_scp files))).
Proof.
  intros Hok. revert errors.
  induction Hok as [|f files Hf _ IH]; intros errors.
  - cbn. by rewrite Nat.add_0_r.
  - cbn [cli_fold map concat]. rewrite validate_file_eq by done.
    rewrite print_lines_app. cli_norm. rewrite IH.
    replace (errors + length (failures load_scp [f])
             + length (failures load_scp files))
      with (errors + length (failures load_scp (f :: files))); [done|].
    cbn [failures]. destruct (load_scp f); simpl; lia.
Qed.

Lemma validate_eq path files :
  (if is_file path then files = [path] else scan_directory path = DirFiles files) ->
  Forall (no_crash load_scp) files ->
  validate markup_error is_file scan_directory load_scp path
  = (print_lines markup_error (validate_lines load_scp files);;
     (([], validate_ending load_scp files) : cli unit)).
Proof.
  intros Hfiles Hok. unfold validate.
  assert ((if is_file path then mret [path]
           else match scan_directory path with
                | DirFiles files => mret files
                | DirMissing msg => throw (Uncaught (PathError msg))
                | DirCrash what => throw (Uncaught (Crash what))
                end) = (mret files : cli (list string))) as ->.
  { destruct (is_file path); [by subst|by rewrite Hfiles]. }
  rewrite cli_bind_ret.
  destruct files as [|f files].
  - cbn [validate_lines validate_ending]. rewrite print_lines_one. by cli_norm.
  - cbv beta iota. rewrite cli_bind_ret, validate_loop_eq by done.
    unfold validate_lines, validate_ending, summary_line.
    rewrite print_lines_app, print_lines_one. cli_norm. cbn [Nat.add].
    destruct (failures load_scp (f :: files)) as [|e es]; cbn [length].
    + by rewrite cli_bind_unit.
    + done.
Qed.

(** X10: when every line of its report is accepted by the console,
    [validate] ends with exit code 0 when there is no file, with exit code 1
    when at least one file fails to parse, and returns normally when every
    file parses; when a line is rejected it ends with the [MarkupError] of
    the first such line. *)
Theorem validate_exit_status (path : string) (files : list string) :
  (if is_file path then files = [path] else scan_directory path = DirFiles files) ->
  Forall (no_crash load_scp) files ->
  (Forall (accepted markup_error) (validate_lines load_scp files) ->
   snd (validate markup_error is_file scan_directory load_scp path) =
   match files, failures load_scp files with
   | [], _ => Raised (TyperExit 0)
   | _, [] => Returned tt
   | _, _ => Raised (TyperExit 1)
   end) /\
  (forall pre t post msg,
     validate_lines load_scp files = pre ++ t :: post ->
     Forall (accepted markup_error) pre -> markup_error t = Some msg ->
     snd (validate markup_error is_file scan_directory load_scp path)
     = Raised (Uncaught (MarkupError msg))).
Proof.
  intros Hfiles Hok. rewrite (validate_eq path files) by done. split.
  - intros Hacc. by rewrite print_then_accepted.
  - intros pre t post msg -> Hpre Ht.
    by rewrite (print_then_rejected _ _ _ _ _ Hpre Ht).
Qed.

(** X11: [validate] prints the report of every file, in order, and then one
    summary line (the number of files when all are valid, otherwise the
    number of files that failed to parse), as long as the console accepts
    the lines: it stops before the first line that is rejected.  The report
    of a failing file shows its first five errors only. *)
Theorem validate_report (path : string) (files : list string) :
  (if is_file path then files = [path] else scan_directory path = DirFiles files) ->
  Forall (no_crash load_scp) files ->
  files <> [] ->
  validate_lines load_scp files
    = concat (map (file_lines load_scp) files)
      ++ [match failures load_scp files with
          | [] => nl +:+ "[green]All " +:+ pretty (length files)
                     +:+ " file(s) valid[/]"
          | es => nl +:+ "[red]" +:+ pretty (length es)
                     +:+ " file(s) failed validation[/]"
          end] /\
  (Forall (accepted markup_error) (validate_lines load_scp files) ->
   fst (validate markup_error is_file scan_directory load_scp path)
   = map Print (validate_lines load_scp files)) /\
  (forall pre t post msg,
     validate_lines load_scp files = pre ++ t :: post ->
     Forall (accepted markup_error) pre -> markup_error t = Some msg ->
     fst (validate markup_error is_file scan_directory load_scp path)
     = map Print pre) /\
  (forall f e, load_scp f = ParseFailed e ->
     length (file_lines load_scp f) = 2 + min 5 (length (pe_errors e))).
Proof.
  intros Hfiles Hok Hne. rewrite (validate_eq path files) by done. split_and!.
  - by destruct files.
  - intros Hacc. rewrite print_then_accepted by done. cbn [fst]. apply app_nil_r.
  - intros pre t post msg -> Hpre Ht.
    by rewrite (print_then_rejected _ _ _ _ _ Hpre Ht).
  - intros f e Hf. unfold file_lines. rewrite Hf.
    rewrite length_app, length_map, length_take. simpl. lia.
Qed.

(** ** Path errors *)

(** X12: when the directory scan raises [FileNotFoundError] or
    [NotADirectoryError], [validate] prints nothing and lets the exception
    escape, whereas [scan] catches it: it prints the scanning line and the
    error and ends with exit code 1, unless the console rejects one of the
    two lines, which ends the command with [MarkupError] at that line. *)
Theorem missing_directory (path msg : string)
    (neo4j_uri neo4j_user neo4j_password export_format output : option string) :
  is_file path = false ->
  scan_directory path = DirMissing msg ->
  validate markup_error is_file scan_directory load_scp path
    = ([], Raised (Uncaught (PathError msg))) /\
  scan title json_dumps markup_error write_text scan_directory load_scp
    neo4j_session path neo4j_uri neo4j_user neo4j_password export_format output
    = match markup_error ("[bold blue]Scanning[/] " +:+ path) with
      | Some m => ([], Raised (Uncaught (MarkupError m)))
      | None =>
          match markup_error ("[red]Error:[/] " +:+ msg) with
          | Some m => ([Print ("[bold blue]Scanning[/] " +:+ path)],
                       Raised (Uncaught (MarkupError m)))
          | None => ([Print ("[bold blue]Scanning[/] " +:+ path);
                      Print ("[red]Error:[/] " +:+ msg)],
                     Raised (TyperExit 1))
          end
      end.
Proof.
  intros Hf Hd. split.
  - unfold validate. by rewrite Hf, Hd.
  - unfold scan, console_print. rewrite Hd.
    destruct (markup_error ("[bold blue]Scanning[/] " +:+ path)); [done|].
    by destruct (markup_error ("[red]Error:[/] " +:+ msg)).
Qed.

(** ** [scan] *)

Lemma scan_loop_eq files manifests errors :
  Forall (no_crash load_scp) files ->
  cli_fold (scan_file markup_error load_scp) (manifests, errors) files
  = (print_lines markup_error (concat (map (scan_line load_scp) files));;
     mret (manifests ++ parsed load_scp files,
           errors ++ failures load_scp files)).
Proof.
  intros Hok. revert manifests errors.
  induction Hok as [|f files Hf _ IH]; intros manifests errors.
  - cbn. by rewrite !app_nil_r.
  - cbn [cli_fold scan_file map concat parsed failures].
    rewrite print_lines_app.
    set (rest := concat (map (scan_line load_scp) files)) in *.
    unfold scan_line. destruct (load_scp f) as [m|e|what] eqn:E.
    + rewrite print_lines_one. cli_norm. rewrite IH.
      by rewrite <- !app_assoc.
    + rewrite print_lines_one. cli_norm. rewrite IH.
      by rewrite <- !app_assoc.
    + by destruct (Hf what).
Qed.

Lemma scan_eq path files neo4j_uri neo4j_user neo4j_password export_format output :
  scan_directory path = DirFiles files ->
  files <> [] ->
  Forall (no_crash load_scp) files ->
  scan title json_dumps markup_error write_text scan_directory load_scp
    neo4j_session path neo4j_uri neo4j_user neo4j_password export_format output
  = (print_lines markup_error (scan_lines load_scp path files);;
     sync_block markup_error neo4j_session (parsed load_scp files)
       neo4j_uri neo4j_user neo4j_password;;
     export_block title json_dumps markup_error write_text
       (parsed load_scp files) export_format output).
Proof.
  intros Hd Hne Hok. unfold scan, scan_lines.
  rewrite Hd. destruct files as [|f files]; [done|].
  cli_norm. cbv beta iota. cli_norm.
  rewrite scan_loop_eq by done. cbn [app print_lines].
  rewrite print_lines_app. cli_norm. cbv beta iota.
  destruct (failures load_scp (f :: files)) as [|e es].
  - cbn [print_lines]. by cli_norm.
  - by rewrite print_lines_one.
Qed.

(** X13: [scan] syncs and exports the manifests of the files that parse, in
    file order and each labelled with its path; a file that fails to parse
    only adds a line and, at the end of the listing, one warning with the
    number of such files.  Without sync and export, and with every line of
    the listing accepted by the console, the command returns normally
    however many files failed; a rejected line ends it with [MarkupError]
    before anything is synced or exported. *)
Theorem scan_uses_parsed_manifests (path : string) (files : list string)
    (neo4j_uri neo4j_user neo4j_password export_format output : option string) :
  scan_directory path = DirFiles files ->
  files <> [] ->
  Forall (no_crash load_scp) files ->
  scan title json_dumps markup_error write_text scan_directory load_scp
    neo4j_session path neo4j_uri neo4j_user neo4j_password export_format output
  = (print_lines markup_error (scan_lines load_scp path files);;
     sync_block markup_error neo4j_session (parsed load_scp files)
       neo4j_uri neo4j_user neo4j_password;;
     export_block title json_dumps markup_error write_text
       (parsed load_scp files) export_format output) /\
  (Forall (accepted markup_error) (scan_lines load_scp path files) ->
   neo4j_configured neo4j_uri neo4j_user neo4j_password = false ->
   truthy export_format = false ->
   scan title json_dumps markup_error write_text scan_directory load_scp
     neo4j_session path neo4j_uri neo4j_user neo4j_password export_format output
   = (map Print (scan_lines load_scp path files), Returned tt)) /\
  (forall pre t post msg,
     scan_lines load_scp path files = pre ++ t :: post ->
     Forall (accepted markup_error) pre -> markup_error t = Some msg ->
     scan title json_dumps markup_error write_text scan_directory load_scp
       neo4j_session path neo4j_uri neo4j_user neo4j_password export_format
       output
     = (map Print pre, Raised (Uncaught (MarkupError msg)))).
Proof.
  intros Hd Hne Hok. rewrite (scan_eq path files) by done. split_and!.
  - done.
  - intros Hacc Hneo Hexp. rewrite print_then_accepted by done.
    unfold sync_block, export_block. rewrite Hneo, Hexp.
    rewrite cli_bind_ret. cbn [fst snd mret cli_ret]. by rewrite app_nil_r.
  - intros pre t post msg -> Hpre Ht.
    by rewrite (print_then_rejected _ _ _ _ _ Hpre Ht).
Qed.



(** ** The export block *)

Lemma export_mermaid_ok ms direction :
  exists text, export_mermaid title ms direction = Ok text.
Proof.
  unfold export_mermaid.
  destruct (mermaid_lines_eq title ms direction) as (els & _ & ->). by eexists.
Qed.

(** X15: the export block of [scan] and [scan-github] never fails in the
    export itself.  For the formats [json] and [mermaid] it hands the
    serialized graph, or the LR diagram, of the manifests (labels dropped)
    to [write_text] when an output path is given, and confirms with one line
    unless the write raises; it shows the content otherwise.  Without a
    format it does nothing, even when an output path is given; any other
    format is reported in one line and ends with exit code 1, nothing written
    or shown.  A line the console rejects ends the block with [MarkupError]
    instead (after the write, for the confirmation line). *)
Theorem export_block_cases (manifests : list (SCPManifest * string))
    (output : option string) :
  exists g text,
    export_json (map fst manifests) = Ok g /\
    export_mermaid title (map fst manifests) "LR" = Ok text /\
    export_block title json_dumps markup_error write_text manifests None output
      = ([], Returned tt) /\
    export_block title json_dumps markup_error write_text manifests
      (Some EmptyString) output
      = ([], Returned tt) /\
    export_block title json_dumps markup_error write_text manifests
      (Some "json") output
      = delivery markup_error write_text output (json_dumps g) "json" /\
    export_block title json_dumps markup_error write_text manifests
      (Some "mermaid") output
      = delivery markup_error write_text output text "text" /\
    (forall fmt, fmt <> EmptyString -> fmt <> "json" -> fmt <> "mermaid" ->
       export_block title json_dumps markup_error write_text manifests
         (Some fmt) output
       = match markup_error ("[red]Unknown export format:[/] " +:+ fmt) with
         | None => ([Print ("[red]Unknown export format:[/] " +:+ fmt)],
                    Raised (TyperExit 1))
         | Some m => ([], Raised (Uncaught (MarkupError m)))
         end).
Proof.
  destruct (export_mermaid_ok (map fst manifests) "LR") as [text Htext].
  eexists _, text. split; [apply export_json_eq|]. split; [exact Htext|].
  split_and!; [done|done| | |].
  - unfold export_block, delivery, console_print.
    cbn [truthy from_option id]. cbn. rewrite export_json_eq. cbn.
    destruct output as [out|]; [|done].
    destruct (write_text out _); [done|].
    by destruct (markup_error _).
  - unfold export_block, delivery, console_print. cbn. rewrite Htext. cbn.
    destruct output as [out|]; [|done].
    destruct (write_text out _); [done|].
    by destruct (markup_error _).
  - intros fmt H0 Hj Hm. unfold export_block, console_print.
    destruct fmt as [|c fmt]; [done|]. cbn [truthy from_option id].
    destruct (String.eqb_spec (String c fmt) "json") as [?|_]; [done|].
    destruct (String.eqb_spec (String c fmt) "mermaid") as [?|_]; [done|].
    by destruct (markup_error _).
Qed.

(** ** How the commands end *)

Lemma clean_relax {A} (o : outcome A) : clean_ending false o -> clean_ending true o.
Proof. by destruct o as [a|[code|[msg|e|msg|what]]]. Qed.

Lemma clean_bind {A B} b (c : cli A) (f : A -> cli B) :
  clean_ending b c.2 -> (forall a, clean_ending b (f a).2) ->
  clean_ending b (mbind f c).2.
Proof.
  destruct c as [t [a|r]]; intros Hc Hf.
  - rewrite cli_bind_returned. apply Hf.
  - by rewrite cli_bind_raised.
Qed.

Lemma clean_fold {S B} b (body : S -> B -> cli S) (l : list B) (st : S) :
  (forall s x, clean_ending b (body s x).2) -> clean_ending b (cli_fold body st l).2.
Proof.
  intros Hbody. revert st. induction l as [|x l IH]; intros st; [done|].
  cbn [cli_fold]. by apply clean_bind.
Qed.

Lemma clean_print b t : clean_ending b (console_print markup_error t).2.
Proof. unfold console_print. by destruct (markup_error t). Qed.

Lemma clean_sync_block manifests neo4j_uri neo4j_user neo4j_password :
  clean_ending false
    (sync_block markup_error neo4j_session manifests
       neo4j_uri neo4j_user neo4j_password).2.
Proof.
  unfold sync_block. destruct (neo4j_configured _ _ _); [|done].
  apply clean_bind; [apply clean_print|]. intros _.
  destruct (neo4j_session _ _ _ _) as [msg|stats [msg|]|]; try done.
  - apply clean_bind; [apply clean_print|]. intros _. by right.
  - apply clean_bind; [done|]. intros _. apply clean_bind; [apply clean_print|].
    intros _. by right.
Qed.

Lemma clean_export_block manifests export_format output :
  clean_ending false
    (export_block title json_dumps markup_error write_text manifests
       export_format output).2.
Proof.
  unfold export_block. destruct (truthy export_format); [|done].
  destruct (export_mermaid_ok (map fst manifests) "LR") as [text Htext].
  rewrite export_json_eq, Htext.
  apply clean_bind.
  - destruct (String.eqb _ "json"); [done|].
    destruct (String.eqb _ "mermaid"); [done|].
    apply clean_bind; [apply clean_print|]. intros _. by right.
  - intros content. destruct output as [out|].
    + apply clean_bind; [done|]. intros _. apply clean_bind; [|intros _; apply clean_print].
      by destruct (write_text out content).
    + apply clean_bind; [done|]. intros _.
      by destruct (String.eqb _ "mermaid").
Qed.

(** X16: the three commands end normally, with exit code 0 or 1, or with an
    exception of a collaborator, of [write_text] or of the console's markup
    parser that nothing catches: never with another exit code, never with an
    exception of the exports, and only [validate] lets a [FileNotFoundError]
    or [NotADirectoryError] of the directory scan escape. *)
Theorem commands_end_cleanly (path org : string)
    (token neo4j_uri neo4j_user neo4j_password export_format output
       : option string) :
  clean_ending true
    (validate markup_error is_file scan_directory load_scp path).2 /\
  clean_ending false
    (scan title json_dumps markup_error write_text scan_directory load_scp
       neo4j_session path neo4j_uri neo4j_user neo4j_password export_format
       output).2 /\
  clean_ending false
    (scan_github title json_dumps markup_error write_text scan_github_org
       neo4j_session org token neo4j_uri neo4j_user neo4j_password
       export_format output).2.
Proof.
  split_and!.
  - unfold validate. apply clean_bind.
    { destruct (is_file path); [done|]. by destruct (scan_directory path). }
    intros files. apply clean_bind.
    { destruct files; [|done]. apply clean_bind; [apply clean_print|].
      intros _. by left. }
    intros _. apply clean_bind.
    { apply clean_fold. intros n f. unfold validate_file.
      destruct (load_scp f) as [m|e|what]; [| |done].
      - repeat (apply clean_bind; [|intros _]); try done; try apply clean_print.
        + destruct (items (depends m)); [done|apply clean_print].
        + destruct (items (provides m)); [done|apply clean_print].
      - repeat (apply clean_bind; [|intros _]); try done; try apply clean_print.
        apply clean_fold. intros _ err. apply clean_print. }
    intros [|n]; [apply clean_print|].
    apply clean_bind; [apply clean_print|]. intros _. by right.
  - unfold scan. apply clean_bind; [apply clean_print|]. intros _.
    apply clean_bind.
    { destruct (scan_directory path); [done| |done].
      apply clean_bind; [apply clean_print|]. intros _. by right. }
    intros files. apply clean_bind.
    { destruct files; [|done]. apply clean_bind; [apply clean_print|].
      intros _. by left. }
    intros _. apply clean_bind; [apply clean_print|]. intros _.
    apply clean_bind.
    { apply clean_fold. intros [ms es] f. unfold scan_file.
      destruct (load_scp f); [| |done];
        (apply clean_bind; [apply clean_print|done]). }
    intros [ms es]. apply clean_bind.
    { destruct es; [done|apply clean_print]. }
    intros _. apply clean_bind; [apply clean_sync_block|]. intros _.
    apply clean_export_block.
  - unfold scan_github. apply clean_bind.
    { destruct (truthy token); [done|]. apply clean_bind; [apply clean_print|].
      intros _. by right. }
    intros _. apply clean_bind; [apply clean_print|]. intros _.
    apply clean_bind.
    { destruct (scan_github_org _ _); [done|].
      apply clean_bind; [apply clean_print|]. intros _. by right. }
    intros files. apply clean_bind.
    { destruct files; [|done]. apply clean_bind; [apply clean_print|].
      intros _. by left. }
    intros _. apply clean_bind; [apply clean_print|]. intros _.
    apply clean_bind.
    { apply clean_fold. intros _ f. apply clean_print. }
    intros _. apply clean_bind; [apply clean_sync_block|]. intros _.
    apply clean_export_block.
Qed.

(** ** [scan-github] *)

Lemma scan_github_eq org token neo4j_uri neo4j_user neo4j_password
    export_format output :
  truthy token = true ->
  scan_github title json_dumps markup_error write_text scan_github_org
    neo4j_session org token neo4j_uri neo4j_user neo4j_password export_format
    output
  = (print_lines markup_error
       (github_lines org (scan_github_org org (default EmptyString token)));;
     match scan_github_org org (default EmptyString token) return cli unit with
     | GithubFailed _ => throw (TyperExit 1)
     | GithubFiles [] => throw (TyperExit 0)
     | GithubFiles files =>
         sync_block markup_error neo4j_session files
           neo4j_uri neo4j_user neo4j_password;;
         export_block title json_dumps markup_error write_text files
           export_format output
     end).
Proof.
  intros Htok. unfold scan_github, github_lines. rewrite Htok.
  destruct (scan_github_org org _) as [[|f files]|msg];
    cbn [print_lines]; cli_norm; cbv beta iota; cli_norm.
  - done.
  - rewrite print_lines_fold. by cli_norm.
  - done.
Qed.

(** X17: [scan-github] without a token prints the token error and ends with
    exit code 1 whatever the GitHub scan would return.  With a token it
    prints the scanning line and then: the error and exit code 1 when the
    GitHub call fails; a notice and exit code 0 when no file is found;
    otherwise the number of files and one line per file with its repository
    name, after which all the files are synced and exported.  A line the
    console rejects ends the command with [MarkupError] at that line, before
    any sync or export. *)
Theorem scan_github_cases (org : string)
    (token neo4j_uri neo4j_user neo4j_password export_format output
       : option string) :
  (truthy token = false ->
   scan_github title json_dumps markup_error write_text scan_github_org
     neo4j_session org token neo4j_uri neo4j_user neo4j_password export_format
     output
   = match markup_error "[red]Error:[/] GitHub token required (--token or GITHUB_TOKEN env var)" with
     | None => ([Print "[red]Error:[/] GitHub token required (--token or GITHUB_TOKEN env var)"],
                Raised (TyperExit 1))
     | Some m => ([], Raised (Uncaught (MarkupError m)))
     end) /\
  (truthy token = true ->
   Forall (accepted markup_error)
     (github_lines org (scan_github_org org (default EmptyString token))) ->
   scan_github title json_dumps markup_error write_text scan_github_org
     neo4j_session org token neo4j_uri neo4j_user neo4j_password export_format
     output
   = (((map Print
          (github_lines org (scan_github_org org (default EmptyString token))),
        Returned tt) : cli unit);;
      match scan_github_org org (default EmptyString token) return cli unit with
      | GithubFailed _ => throw (TyperExit 1)
      | GithubFiles [] => throw (TyperExit 0)
      | GithubFiles files =>
          sync_block markup_error neo4j_session files
            neo4j_uri neo4j_user neo4j_password;;
          export_block title json_dumps markup_error write_text files
            export_format output
      end)) /\
  (truthy token = true ->
   forall pre t post msg,
     github_lines org (scan_github_org org (default EmptyString token))
       = pre ++ t :: post ->
     Forall (accepted markup_error) pre -> markup_error t = Some msg ->
     scan_github title json_dumps markup_error write_text scan_github_org
       neo4j_session org token neo4j_uri neo4j_user neo4j_password
       export_format output
     = (map Print pre, Raised (Uncaught (MarkupError msg)))).
Proof.
  split_and!.
  - intros Htok. unfold scan_github. rewrite Htok. cli_norm.
    unfold console_print at 1. by destruct (markup_error _).
  - intros Htok Hacc. rewrite scan_github_eq by done.
    by rewrite (print_lines_accepted _ Hacc).
  - intros Htok pre t post msg Hl Hpre Ht. rewrite scan_github_eq by done.
    by rewrite Hl, (print_then_rejected _ _ _ _ _ Hpre Ht).
Qed.

End CliProperties.

(** ** Concrete runs of the commands *)

Lemma sample_no_crash files : Forall (no_crash sample_load_scp) files.
Proof.
  apply Forall_forall. intros f _ what. unfold sample_load_scp.
  by repeat case_match.
Qed.

Lemma export_mermaid_undeclared_stub_witness :
  Forall (fun m => urn (system m) <> "urn:scp:test:user-service") [order_service] /\
  Exists (depends_on "urn:scp:test:user-service") [order_service] /\
  exists st,
    foldlM (register_manifest ascii_title) init_mermaid [order_service] = Ok st /\
    dict_get "urn:scp:test:user-service" (systems st) =
      Some {| info_id := "user_service"; info_name := "User Service";
              info_tier := None |}.
Proof.
  assert (Forall (fun m => urn (system m) <> "urn:scp:test:user-service")
            [order_service]) as H1 by (repeat constructor; discriminate).
  assert (Exists (depends_on "urn:scp:test:user-service") [order_service]) as H2.
  { left. eexists. split; [left|reflexivity]. }
  split; [exact H1|]. split; [exact H2|].
  destruct (export_mermaid_undeclared_stub ascii_title [order_service]
              "urn:scp:test:user-service" "LR" H1 H2)
    as (st & lns & Hst & Hget & _).
  exists st. split; [exact Hst|]. exact Hget.
Defined.

Lemma validate_exit_status_witness :
  (if sample_is_file "repo" then
     ["repo/orders/scp.yaml"; "repo/broken/scp.yaml"; "repo/users/scp.yaml"]
     = ["repo"]
   else sample_scan_directory "repo"
        = DirFiles ["repo/orders/scp.yaml"; "repo/broken/scp.yaml";
                    "repo/users/scp.yaml"]) /\
  Forall (accepted sample_markup_error)
    (validate_lines sample_load_scp
       ["repo/orders/scp.yaml"; "repo/broken/scp.yaml"; "repo/users/scp.yaml"]) /\
  snd (validate sample_markup_error sample_is_file sample_scan_directory
         sample_load_scp "repo")
    = Raised (TyperExit 1).
Proof.
  assert (Forall (accepted sample_markup_error)
            (validate_lines sample_load_scp
               ["repo/orders/scp.yaml"; "repo/broken/scp.yaml";
                "repo/users/scp.yaml"])) as Hacc
    by (apply (bool_decide_unpack _); vm_compute; exact I).
  split; [reflexivity|]. split; [exact Hacc|].
  exact (proj1 (validate_exit_status sample_markup_error sample_is_file
                  sample_scan_directory sample_load_scp "repo"
                  ["repo/orders/scp.yaml"; "repo/broken/scp.yaml";
                   "repo/users/scp.yaml"]
                  eq_refl (sample_no_crash _)) Hacc).
Defined.

Lemma validate_report_witness :
  ["legacy/orders/scp.yaml"] <> [] /\
  validate_lines sample_load_scp ["legacy/orders/scp.yaml"]
    = ["✓ [green]legacy/orders/scp.yaml[/]"]
      ++ "  System: Orders [/v2] (urn:scp:test:orders-v2)"
         :: [nl +:+ "[green]All 1 file(s) valid[/]"] /\
  sample_markup_error "  System: Orders [/v2] (urn:scp:test:orders-v2)"
    = Some "closing tag '[/v2]' doesn't match any open tag" /\
  fst (validate sample_markup_error sample_is_file sample_scan_directory
         sample_load_scp "legacy")
    = [Print "✓ [green]legacy/orders/scp.yaml[/]"] /\
  length (file_lines sample_load_scp "repo/broken/scp.yaml") = 4.
Proof.
  assert (["legacy/orders/scp.yaml"] <> @nil string) as Hne by discriminate.
  assert (Forall (accepted sample_markup_error)
            ["✓ [green]legacy/orders/scp.yaml[/]"]) as Hpre
    by (apply (bool_decide_unpack _); vm_compute; exact I).
  split; [exact Hne|]. split; [reflexivity|]. split; [reflexivity|].
  destruct (validate_report sample_markup_error sample_is_file
              sample_scan_directory sample_load_scp "legacy"
              ["legacy/orders/scp.yaml"] eq_refl (sample_no_crash _) Hne)
    as (_ & _ & Hstop & Hlen).
  split.
  - exact (Hstop ["✓ [green]legacy/orders/scp.yaml[/]"]
             "  System: Orders [/v2] (urn:scp:test:orders-v2)"
             [nl +:+ "[green]All 1 file(s) valid[/]"]
             "closing tag '[/v2]' doesn't match any open tag"
             eq_refl Hpre eq_refl).
  - exact (Hlen "repo/broken/scp.yaml" sample_parse_error eq_refl).
Defined.

Lemma missing_directory_witness :
  sample_is_file "nowhere" = false /\
  sample_scan_directory "nowhere" = DirMissing "Directory not found: nowhere" /\
  validate sample_markup_error sample_is_file sample_scan_directory
    sample_load_scp "nowhere"
    = ([], Raised (Uncaught (PathError "Directory not found: nowhere"))) /\
  scan ascii_title sample_json_dumps sample_markup_error sample_write_text
    sample_scan_directory sample_load_scp sample_session "nowhere"
    None None None None None
    = ([Print "[bold blue]Scanning[/] nowhere";
        Print "[red]Error:[/] Directory not found: nowhere"],
       Raised (TyperExit 1)).
Proof.
  split; [reflexivity|]. split; [reflexivity|].
  destruct (missing_directory ascii_title sample_json_dumps sample_markup_error
              sample_is_file sample_write_text sample_scan_directory
              sample_load_scp sample_session "nowhere"
              "Directory not found: nowhere"
              None None None None None eq_refl eq_refl) as [Hv Hs].
  split; [exact Hv|]. rewrite Hs. reflexivity.
Defined.

Lemma scan_uses_parsed_manifests_witness :
  sample_scan_directory "repo"
    = DirFiles ["repo/orders/scp.yaml"; "repo/broken/scp.yaml";
                "repo/users/scp.yaml"] /\
  parsed sample_load_scp
    ["repo/orders/scp.yaml"; "repo/broken/scp.yaml"; "repo/users/scp.yaml"]
    = [(order_service, "repo/orders/scp.yaml");
       (user_service, "repo/users/scp.yaml")] /\
  Forall (accepted sample_markup_error)
    (scan_lines sample_load_scp "repo"
       ["repo/orders/scp.yaml"; "repo/broken/scp.yaml"; "repo/users/scp.yaml"]) /\
  snd (scan ascii_title sample_json_dumps sample_markup_error sample_write_text
         sample_scan_directory sample_load_scp sample_session "repo"
         None None None None None)
    = Returned tt.
Proof.
  assert (["repo/orders/scp.yaml"; "repo/broken/scp.yaml"; "repo/users/scp.yaml"]
          <> @nil string) as Hne by discriminate.
  assert (Forall (accepted sample_markup_error)
            (scan_lines sample_load_scp "repo"
               ["repo/orders/scp.yaml"; "repo/broken/scp.yaml";
                "repo/users/scp.yaml"])) as Hacc
    by (apply (bool_decide_unpack _); vm_compute; exact I).
  split; [reflexivity|]. split; [reflexivity|]. split; [exact Hacc|].
  destruct (scan_uses_parsed_manifests ascii_title sample_json_dumps
              sample_markup_error sample_write_text sample_scan_directory
              sample_load_scp sample_session "repo" _ None None None None None
              eq_refl Hne (sample_no_crash _)) as (_ & Hplain & _).
  rewrite (Hplain Hacc eq_refl eq_refl). reflexivity.
Defined.


Lemma export_block_cases_witness :
  "yaml" <> EmptyString /\ "yaml" <> "json" /\ "yaml" <> "mermaid" /\
  export_block ascii_title sample_json_dumps sample_markup_error
    sample_write_text [(order_service, "repo/orders/scp.yaml")]
    (Some "yaml") (Some "out.txt")
  = ([Print "[red]Unknown export format:[/] yaml"], Raised (TyperExit 1)).
Proof.
  assert ("yaml" <> EmptyString) as H0 by discriminate.
  assert ("yaml" <> "json") as H1 by discriminate.
  assert ("yaml" <> "mermaid") as H2 by discriminate.
  split; [exact H0|]. split; [exact H1|]. split; [exact H2|].
  destruct (export_block_cases ascii_title sample_json_dumps
              sample_markup_error sample_write_text
              [(order_service, "repo/orders/scp.yaml")] (Some "out.txt"))
    as (g & text & _ & _ & _ & _ & _ & _ & Hunknown).
  rewrite (Hunknown "yaml" H0 H1 H2). reflexivity.
Defined.

Lemma scan_github_cases_witness :
  truthy (Some EmptyString) = false /\
  scan_github ascii_title sample_json_dumps sample_markup_error
    sample_write_text sample_scan_github_org sample_session "acme"
    (Some EmptyString) None None None (Some "json") None
  = ([Print "[red]Error:[/] GitHub token required (--token or GITHUB_TOKEN env var)"],
     Raised (TyperExit 1)).
Proof.
  split; [reflexivity|].
  destruct (scan_github_cases ascii_title sample_json_dumps sample_markup_error
              sample_write_text sample_scan_github_org sample_session "acme"
              (Some EmptyString) None None None (Some "json") None)
    as (Hnone & _ & _).
  rewrite (Hnone eq_refl). reflexivity.
Defined.
